(** * Kama_memoryPool (MemoryPool v1, step 3): a shallow embedding

    The pool engine [MemoryPool] (MemoryPool.cpp) and the size-class router
    [HashBucket] with the typed helpers [newElement] / [deleteElement]
    (MemoryPool.h), modelled for a single thread on an LP64 little-endian
    target: [size_t] and pointers are 64-bit, [int] is 32-bit,
    a [Slot] and a pointer to one both take 8 bytes.

    Memory is byte addressed.  The system allocator ([operator new]) is an
    oracle: the list of the addresses its next calls return.  Undefined
    behaviour and thrown exceptions are results of their own ([Fault]). *)

From Stdlib Require Import ZArith List Lia Bool.
From stdpp Require Import base list.
Import ListNotations.
Local Open Scope Z_scope.

(** ** Machine integers *)

Definition wrap64 (z : Z) : Z := z mod 2 ^ 64.

(** Conversion of a value to [int] (two's complement, 32 bits). *)
Definition to_int (z : Z) : Z :=
  let r := z mod 2 ^ 32 in if r <? 2 ^ 31 then r else r - 2 ^ 32.

(** Conversion of an [int] to [size_t]. *)
Definition to_size_t (z : Z) : Z := wrap64 z.

(** Arithmetic on [char*]: the address moves by [n] bytes. *)
Definition ptr_add (p n : Z) : Z := wrap64 (p + n).

Definition nullptr : Z := 0.
Definition sizeof_Slot : Z := 8.
Definition sizeof_Slot_ptr : Z := 8.

Definition MEMORY_POOL_NUM : Z := 64.
Definition SLOT_BASE_SIZE : Z := 8.
Definition MAX_SLOT_SIZE : Z := 512.

(** ** Byte-addressed memory *)

Definition Memory : Type := Z -> Z.

Definition store8 (m : Memory) (a v : Z) : Memory :=
  fun x => if x =? a then v mod 256 else m x.

Fixpoint store_le (n : nat) (m : Memory) (a v : Z) : Memory :=
  match n with
  | O => m
  | S k => store_le k (store8 m a v) (a + 1) (v / 256)
  end.

Fixpoint load_le (n : nat) (m : Memory) (a : Z) : Z :=
  match n with
  | O => 0
  | S k => m a mod 256 + 256 * load_le k m (a + 1)
  end.

(** [slot->next.store(v)] and [slot->next.load()]: the link is the first
    word of the slot. *)
Definition next_store (m : Memory) (slot v : Z) : Memory := store_le 8 m slot v.
Definition next_load (m : Memory) (slot : Z) : Z := load_le 8 m slot.

Arguments wrap64 : simpl never.
Arguments to_int : simpl never.
Arguments to_size_t : simpl never.
Arguments ptr_add : simpl never.
Arguments next_store : simpl never.
Arguments next_load : simpl never.

(** ** The world outside the pools *)

Inductive event : Type :=
| EvNew (size addr : Z)      (* operator new(size) returned addr *)
| EvDelete (addr : Z)        (* operator delete(addr) *)
| EvLock                     (* mutexForBlock_ taken *)
| EvUnlock                   (* mutexForBlock_ released *)
| EvConstruct (addr : Z)     (* new (addr) T(args...) *)
| EvDestruct (addr : Z).     (* p->~T() *)

Record Sys : Type := mkSys {
  memory : Memory;
  arena : list Z;            (* what the next calls of operator new return *)
  trace : list event
}.

(** ** Results, faults and the state monad *)

Inductive fault : Type :=
| DivideByZero               (* x % 0 *)
| OutOfBounds                (* memoryPool[index], index outside 0..63 *)
| BadAlloc                   (* operator new throws std::bad_alloc *)
| AssertFailed               (* assert(...) *)
| NoProgress.                (* a compare-and-swap loop that never succeeds *)

Inductive outcome (A : Type) : Type :=
| Ok (a : A)
| Fault (f : fault).
Arguments Ok {A} a.
Arguments Fault {A} f.

Definition M (St A : Type) : Type := St -> outcome (A * St).

Definition ret {St A} (a : A) : M St A := fun s => Ok (a, s).

Definition bind {St A B} (c : M St A) (k : A -> M St B) : M St B :=
  fun s => match c s with
           | Ok (a, s') => k a s'
           | Fault f => Fault f
           end.

Definition fail {St A} (f : fault) : M St A := fun _ => Fault f.

Declare Scope pool_scope.
Delimit Scope pool_scope with pool.
Notation "x <- c ;; k" := (bind c (fun x => k))
  (at level 100, c at next level, right associativity) : pool_scope.
Notation "c ;; k" := (bind c (fun _ => k))
  (at level 100, k at level 200, right associativity) : pool_scope.
Local Open Scope pool_scope.

(** ** MemoryPool *)

Record MemoryPool : Type := mkPool {
  BlockSize_ : Z;            (* int *)
  SlotSize_ : Z;             (* int *)
  firstBlock_ : Z;           (* Slot* *)
  curSlot_ : Z;              (* Slot* *)
  lastSlot_ : Z;             (* Slot* *)
  freeList_ : Z              (* std::atomic<Slot*> *)
}.

(** The state a member function runs in: the object and the world. *)
Record Obj : Type := mkObj { this : MemoryPool; env : Sys }.

Definition set_firstBlock (v : Z) (p : MemoryPool) : MemoryPool :=
  mkPool (BlockSize_ p) (SlotSize_ p) v (curSlot_ p) (lastSlot_ p) (freeList_ p).
Definition set_curSlot (v : Z) (p : MemoryPool) : MemoryPool :=
  mkPool (BlockSize_ p) (SlotSize_ p) (firstBlock_ p) v (lastSlot_ p) (freeList_ p).
Definition set_lastSlot (v : Z) (p : MemoryPool) : MemoryPool :=
  mkPool (BlockSize_ p) (SlotSize_ p) (firstBlock_ p) (curSlot_ p) v (freeList_ p).
Definition set_freeList (v : Z) (p : MemoryPool) : MemoryPool :=
  mkPool (BlockSize_ p) (SlotSize_ p) (firstBlock_ p) (curSlot_ p) (lastSlot_ p) v.

Definition self : M Obj MemoryPool := fun o => Ok (this o, o).
Definition update (f : MemoryPool -> MemoryPool) : M Obj unit :=
  fun o => Ok (tt, mkObj (f (this o)) (env o)).
Definition emit (e : event) : M Obj unit :=
  fun o => Ok (tt, mkObj (this o)
                         (mkSys (memory (env o)) (arena (env o)) (trace (env o) ++ [e]))).
Definition write_next (slot v : Z) : M Obj unit :=
  fun o => Ok (tt, mkObj (this o)
                         (mkSys (next_store (memory (env o)) slot v) (arena (env o)) (trace (env o)))).
Definition read_next (slot : Z) : M Obj Z :=
  fun o => Ok (next_load (memory (env o)) slot, o).

(** [operator new(size)] and [operator delete(p)] on the world. *)
Definition sys_new (size : Z) (s : Sys) : outcome (Z * Sys) :=
  match arena s with
  | [] => Fault BadAlloc
  | a :: rest => Ok (a, mkSys (memory s) rest (trace s ++ [EvNew size a]))
  end.
Definition sys_delete (p : Z) (s : Sys) : outcome (unit * Sys) :=
  Ok (tt, mkSys (memory s) (arena s) (trace s ++ [EvDelete p])).

Definition operator_new (size : Z) : M Obj Z :=
  fun o => match sys_new size (env o) with
           | Ok (a, s) => Ok (a, mkObj (this o) s)
           | Fault f => Fault f
           end.

(** [MemoryPool::MemoryPool(size_t BlockSize = 4096)] *)
Definition MemoryPool_ctor (BlockSize : Z) : MemoryPool :=
  mkPool (to_int BlockSize) 0 nullptr nullptr nullptr nullptr.

(** [MemoryPool::init] *)
Definition init (size : Z) : M Obj unit :=
  if size >? 0 then
    update (fun p => mkPool (BlockSize_ p) (to_int size) nullptr nullptr nullptr nullptr)
  else fail AssertFailed.

(** [MemoryPool::padPointer] *)
Definition padPointer {St} (p align : Z) : M St Z :=
  if align =? 0 then fail DivideByZero
  else
    let rem := p mod align in
    ret (if rem =? 0 then 0 else align - rem).

(** [freeList_.compare_exchange_weak(expected, desired)] in one thread: it
    may fail spuriously, leaving the head as it is; otherwise it succeeds
    when the head still is [expected] and makes [desired] the head. *)
Definition compare_exchange_weak (spurious : bool) (expected desired : Z)
  : M Obj bool :=
  fun o =>
    if spurious then Ok (false, o)
    else if freeList_ (this o) =? expected
         then Ok (true, mkObj (set_freeList desired (this o)) (env o))
         else Ok (false, o).

Definition is_spurious (spur : nat) : bool :=
  match spur with O => false | S _ => true end.

(** [MemoryPool::pushFreeList]; [spur] is the number of spurious failures
    of the compare-and-swap before it goes through. *)
Fixpoint pushFreeList (spur : nat) (slot : Z) : M Obj bool :=
  p <- self ;;
  let oldHead := freeList_ p in
  write_next slot oldHead ;;
  ok <- compare_exchange_weak (is_spurious spur) oldHead slot ;;
  if ok then ret true
  else match spur with
       | S k => pushFreeList k slot
       | O => fail NoProgress
       end.

(** [MemoryPool::popFreeList] *)
Fixpoint popFreeList (spur : nat) : M Obj Z :=
  p <- self ;;
  let oldHead := freeList_ p in
  if oldHead =? nullptr then ret nullptr
  else
    newHead <- read_next oldHead ;;
    ok <- compare_exchange_weak (is_spurious spur) oldHead newHead ;;
    if ok then ret oldHead
    else match spur with
         | S k => popFreeList k
         | O => fail NoProgress
         end.

(** [MemoryPool::allocateNewBlock] *)
Definition allocateNewBlock : M Obj unit :=
  p <- self ;;
  Block <- operator_new (to_size_t (BlockSize_ p)) ;;
  write_next Block (firstBlock_ p) ;;
  update (set_firstBlock Block) ;;
  let dataAddr := ptr_add Block sizeof_Slot_ptr in
  padSize <- padPointer dataAddr (to_size_t (SlotSize_ p)) ;;
  update (set_curSlot (ptr_add dataAddr padSize)) ;;
  update (set_lastSlot
            (wrap64 (Block + to_size_t (BlockSize_ p) - to_size_t (SlotSize_ p) + 1))).

(** The cursor after [curSlot_ += SlotSize_ / sizeof(Slot)] from [cur]: the
    pointer is a [Slot*], so it moves by whole [Slot]s. *)
Definition bump (p : MemoryPool) (cur : Z) : Z :=
  ptr_add cur (sizeof_Slot * (to_size_t (SlotSize_ p) / sizeof_Slot)).

(** [MemoryPool::allocate] *)
Definition allocate (spur : nat) : M Obj Z :=
  temp <- popFreeList spur ;;
  if negb (temp =? nullptr) then ret temp
  else
    emit EvLock ;;
    p <- self ;;
    (if curSlot_ p >=? lastSlot_ p then allocateNewBlock else ret tt) ;;
    p <- self ;;
    let temp := curSlot_ p in
    update (set_curSlot (bump p (curSlot_ p))) ;;
    emit EvUnlock ;;
    ret temp.

(** The first slot of a chunk at [blk]: the address after the header word,
    padded up to a multiple of the slot size. *)
Definition first_slot (p : MemoryPool) (blk : Z) : Z :=
  let data := ptr_add blk sizeof_Slot_ptr in
  let rem := data mod to_size_t (SlotSize_ p) in
  ptr_add data (if rem =? 0 then 0 else to_size_t (SlotSize_ p) - rem).

Definition boundary (p : MemoryPool) (blk : Z) : Z :=
  wrap64 (blk + to_size_t (BlockSize_ p) - to_size_t (SlotSize_ p) + 1).

(** The three ways an allocation goes: a node of the free stack, the
    cursor, or the first slot of a new chunk. *)
Inductive allocation (p : MemoryPool) (s : Sys) (a : Z) (o' : Obj) : Prop :=
| alloc_reuse :
    freeList_ p <> nullptr ->
    a = freeList_ p ->
    o' = mkObj (set_freeList (next_load (memory s) (freeList_ p)) p) s ->
    allocation p s a o'
| alloc_bump :
    freeList_ p = nullptr ->
    curSlot_ p < lastSlot_ p ->
    a = curSlot_ p ->
    o' = mkObj (set_curSlot (bump p (curSlot_ p)) p)
               (mkSys (memory s) (arena s) (trace s ++ [EvLock] ++ [EvUnlock])) ->
    allocation p s a o'
| alloc_grow (blk : Z) (rest : list Z) :
    freeList_ p = nullptr ->
    lastSlot_ p <= curSlot_ p ->
    arena s = blk :: rest ->
    a = first_slot p blk ->
    o' = mkObj (mkPool (BlockSize_ p) (SlotSize_ p) blk (bump p (first_slot p blk))
                       (boundary p blk) nullptr)
               (mkSys (next_store (memory s) blk (firstBlock_ p)) rest
                      (trace s ++ [EvLock] ++ [EvNew (to_size_t (BlockSize_ p)) blk]
                               ++ [EvUnlock])) ->
    allocation p s a o'.

(** [MemoryPool::deallocate] *)
Definition deallocate (spur : nat) (ptr : Z) : M Obj unit :=
  if ptr =? nullptr then ret tt
  else pushFreeList spur ptr ;; ret tt.

(** ** HashBucket *)

(** The function-local static array of [getMemoryPool]: [None] until the
    first call constructs it. *)
Record World : Type := mkWorld {
  memoryPool : option (list MemoryPool);
  sys : Sys
}.

Definition static_memoryPool (w : World) : list MemoryPool :=
  match memoryPool w with
  | Some l => l
  | None => replicate (Z.to_nat MEMORY_POOL_NUM) (MemoryPool_ctor 4096)
  end.

(** [HashBucket::getMemoryPool]: the array is default-constructed on the
    first call; an index outside the array is undefined behaviour. *)
Definition getMemoryPool (index : Z) : M World MemoryPool :=
  fun w =>
    let pools := static_memoryPool w in
    if (index <? 0) || (MEMORY_POOL_NUM <=? index) then Fault OutOfBounds
    else match pools !! Z.to_nat index with
         | Some p => Ok (p, mkWorld (Some pools) (sys w))
         | None => Fault OutOfBounds
         end.

(** [getMemoryPool(index).f(...)]: a member function run on the element
    the returned reference designates. *)
Definition on_pool {A} (index : Z) (f : M Obj A) : M World A :=
  p <- getMemoryPool index ;;
  fun w =>
    match f (mkObj p (sys w)) with
    | Ok (a, o) =>
        Ok (a, mkWorld (Some (<[Z.to_nat index := this o]> (static_memoryPool w))) (env o))
    | Fault e => Fault e
    end.

Definition global_new (size : Z) : M World Z :=
  fun w => match sys_new size (sys w) with
           | Ok (a, s) => Ok (a, mkWorld (memoryPool w) s)
           | Fault f => Fault f
           end.

Definition global_delete (p : Z) : M World unit :=
  fun w => match sys_delete p (sys w) with
           | Ok (_, s) => Ok (tt, mkWorld (memoryPool w) s)
           | Fault f => Fault f
           end.

(** [for (int i = from; ...; ++i) body(i)], [count] iterations. *)
Fixpoint for_loop {St} (count : nat) (i : Z) (body : Z -> M St unit) : M St unit :=
  match count with
  | O => ret tt
  | S k => body i ;; for_loop k (i + 1) body
  end.

(** [HashBucket::initMemoryPool]; [init_body i] is the body of its loop. *)
Definition init_body (i : Z) : M World unit :=
  on_pool i (init (to_size_t (to_int ((i + 1) * SLOT_BASE_SIZE)))).

Definition initMemoryPool : M World unit :=
  for_loop (Z.to_nat MEMORY_POOL_NUM) 0 init_body.

(** The index expressions of [useMemory] and [freeMemory], computed on
    [size_t] and passed as [int]. *)
Definition useMemory_index (size : Z) : Z :=
  to_int (wrap64 (wrap64 (size + SLOT_BASE_SIZE - 1) / SLOT_BASE_SIZE - 1)).
Definition freeMemory_index (size : Z) : Z :=
  to_int (wrap64 (wrap64 (size + 7) / SLOT_BASE_SIZE - 1)).

(** [HashBucket::useMemory] *)
Definition useMemory (spur : nat) (size : Z) : M World Z :=
  if size <=? 0 then ret nullptr
  else if size >? MAX_SLOT_SIZE then global_new size
  else on_pool (useMemory_index size) (allocate spur).

(** [HashBucket::freeMemory] *)
Definition freeMemory (spur : nat) (ptr size : Z) : M World unit :=
  if ptr =? nullptr then ret tt
  else if size >? MAX_SLOT_SIZE then global_delete ptr
  else on_pool (freeMemory_index size) (deallocate spur ptr).

(** ** Typed helpers *)

(** A class [T] as the helpers see it: its size, and what its constructor
    (with the arguments already chosen) and destructor do to the storage. *)
Record CxxClass : Type := mkClass {
  sizeof : Z;
  ctor : Z -> Memory -> Memory;
  dtor : Z -> Memory -> Memory
}.

Definition placement_new (T : CxxClass) (p : Z) : M World unit :=
  fun w => Ok (tt, mkWorld (memoryPool w)
                     (mkSys (ctor T p (memory (sys w))) (arena (sys w))
                            (trace (sys w) ++ [EvConstruct p]))).

Definition destroy_at (T : CxxClass) (p : Z) : M World unit :=
  fun w => Ok (tt, mkWorld (memoryPool w)
                     (mkSys (dtor T p (memory (sys w))) (arena (sys w))
                            (trace (sys w) ++ [EvDestruct p]))).

(** [newElement<T>(args...)] *)
Definition newElement (T : CxxClass) (spur : nat) : M World Z :=
  p <- useMemory spur (sizeof T) ;;
  (if negb (p =? nullptr) then placement_new T p else ret tt) ;;
  ret p.

(** [deleteElement<T>(p)] *)
Definition deleteElement (T : CxxClass) (spur : nat) (p : Z) : M World unit :=
  if negb (p =? nullptr) then
    destroy_at T p ;;
    freeMemory spur p (sizeof T)
  else ret tt.

(** ** Concrete values for the examples *)

Definition zero_memory : Memory := fun _ => 0.
Definition fresh_sys (blocks : list Z) : Sys := mkSys zero_memory blocks [].
Definition fresh_world (blocks : list Z) : World := mkWorld None (fresh_sys blocks).

(** [class P1 { int id_; };] of the benchmark, and a configured table. *)
Definition P1 : CxxClass := mkClass 4 (fun p m => store_le 4 m p 0) (fun _ m => m).
Definition configured_world (blocks : list Z) : World :=
  mkWorld (Some (map (fun j => mkPool 4096 ((j + 1) * 8) 0 0 0 0) (seqZ 0 64)))
          (fresh_sys blocks).

(** ** A client of one pool *)

(** The calls a single-threaded client makes.  [Deallocate spur which]
    gives back one of the addresses the client was handed: [which] counts
    back from the most recent one. *)
Inductive call : Type :=
| Allocate (spur : nat)
| Deallocate (spur : nat) (which : nat).

Fixpoint client (calls : list call) (given : list Z) : M Obj (list Z) :=
  match calls with
  | [] => ret given
  | Allocate spur :: rest =>
      a <- allocate spur ;;
      client rest (a :: given)
  | Deallocate spur which :: rest =>
      deallocate spur (nth which given nullptr) ;;
      client rest given
  end.

(** [MemoryPool pool(BlockSize); pool.init(size);] and then the calls.  The
    result lists the addresses [allocate] returned, most recent first. *)
Definition session (BlockSize size : Z) (calls : list call) (s : Sys)
  : outcome (list Z * Obj) :=
  (init size ;; client calls []) (mkObj (MemoryPool_ctor BlockSize) s).

(** [operator new] only returns chunks that lie in the address space, with
    the address one past their end representable. *)
Definition sane_arena (BlockSize : Z) (s : Sys) : Prop :=
  Forall (fun blk => 0 < blk /\ blk + BlockSize < 2 ^ 64) (arena s).

(** Where the cursor and the boundary of a pool are: nowhere before the
    first chunk, and afterwards the boundary is [SlotSize_ - 1] bytes
    before the end of the newest chunk and the cursor a multiple of the
    slot size between the chunk's header word and its end. *)
Definition chunk_inv (BlockSize size : Z) (p : MemoryPool) : Prop :=
  BlockSize_ p = BlockSize /\ SlotSize_ p = size /\
  ((curSlot_ p = nullptr /\ lastSlot_ p = nullptr) \/
   (0 < firstBlock_ p /\ firstBlock_ p + BlockSize < 2 ^ 64 /\
    lastSlot_ p = firstBlock_ p + BlockSize - size + 1 /\
    firstBlock_ p + sizeof_Slot_ptr <= curSlot_ p /\
    curSlot_ p <= firstBlock_ p + BlockSize /\
    curSlot_ p mod size = 0)).


(** ** The registry and the trace *)

(** The static array, once constructed, has [MEMORY_POOL_NUM] elements. *)
Definition registry_ok (w : World) : Prop :=
  match memoryPool w with
  | Some l => length l = Z.to_nat MEMORY_POOL_NUM
  | None => True
  end.

(** Pool [j] serves slots of [(j + 1) * SLOT_BASE_SIZE] bytes. *)
Definition configured (w : World) : Prop :=
  exists l, memoryPool w = Some l /\ length l = Z.to_nat MEMORY_POOL_NUM /\
    forall (j : nat) (p : MemoryPool),
      l !! j = Some p -> SlotSize_ p = (Z.of_nat j + 1) * SLOT_BASE_SIZE.

Definition is_construct (e : event) : bool :=
  match e with EvConstruct _ => true | _ => false end.
Definition is_destruct (e : event) : bool :=
  match e with EvDestruct _ => true | _ => false end.

(** How many objects a trace constructs and destroys. *)
Definition constructions (t : list event) : nat := length (List.filter is_construct t).
Definition destructions (t : list event) : nat := length (List.filter is_destruct t).

(** ** The destructor and the loops of the callers *)

Definition operator_delete (ptr : Z) : M Obj unit :=
  fun o => match sys_delete ptr (env o) with
           | Ok (_, s) => Ok (tt, mkObj (this o) s)
           | Fault f => Fault f
           end.

(** The loop of [MemoryPool::~MemoryPool] from [cur]; [fuel] bounds the
    number of iterations, and a list that has not ended by then is
    [NoProgress]. *)
Fixpoint release_blocks (fuel : nat) (cur : Z) : M Obj unit :=
  if cur =? nullptr then ret tt
  else match fuel with
       | O => fail NoProgress
       | S k =>
           next <- read_next cur ;;
           operator_delete cur ;;
           release_blocks k next
       end.

(** [MemoryPool::~MemoryPool] *)
Definition MemoryPool_dtor (fuel : nat) : M Obj unit :=
  p <- self ;;
  release_blocks fuel (firstBlock_ p).

(** [deallocate] of each address of a list in turn, and [n] calls of
    [allocate] with their results in order. *)
Fixpoint deallocate_each (spur : nat) (l : list Z) : M Obj unit :=
  match l with
  | [] => ret tt
  | a :: rest => deallocate spur a ;; deallocate_each spur rest
  end.

Fixpoint allocate_times (spur : nat) (n : nat) : M Obj (list Z) :=
  match n with
  | O => ret []
  | S k =>
      a <- allocate spur ;;
      rest <- allocate_times spur k ;;
      ret (a :: rest)
  end.

(** Blocks of [BlockSize] bytes that do not overlap one another. *)
Fixpoint apart (BlockSize : Z) (l : list Z) : Prop :=
  match l with
  | [] => True
  | b :: rest =>
      Forall (fun c => b + BlockSize <= c \/ c + BlockSize <= b) rest
      /\ apart BlockSize rest
  end.

(** A run of free-stack nodes in memory: from [head] through the nodes of
    [L], each linked to the next, and the last one linked to [tl]. *)
Fixpoint chain_seg (m : Memory) (head : Z) (L : list Z) (tl : Z) : Prop :=
  match L with
  | [] => head = tl
  | a :: rest => head = a /\ a <> nullptr /\ chain_seg m (next_load m a) rest tl
  end.

(** The chunk list in memory: [cs] are the chunks from [head], newest
    first, each header word holding the address of the chunk before. *)
Definition chunk_list (m : Memory) (head : Z) (cs : list Z) : Prop :=
  chain_seg m head cs nullptr.

(** The addresses [operator new] returned, in order. *)
Definition news (t : list event) : list Z :=
  flat_map (fun e => match e with EvNew _ a => [a] | _ => [] end) t.

(** The addresses passed to [operator delete], in order. *)
Definition deletes (t : list event) : list Z :=
  flat_map (fun e => match e with EvDelete a => [a] | _ => [] end) t.

(** ** What a pool owns *)

(** [a] is a slot of one of the chunks [cs]: past the header word and
    with [size] bytes before the chunk's end. *)
Definition in_chunk (BlockSize size : Z) (cs : list Z) (a : Z) : Prop :=
  exists c, In c cs /\ c + sizeof_Slot_ptr <= a /\ a + size <= c + BlockSize.


(** The slots a cursor hands out from [cur] on. *)
Fixpoint slots_from (cur size : Z) (n : nat) : list Z :=
  match n with
  | O => []
  | S k => cur :: slots_from (cur + size) size k
  end.

(** ** The tests of the pool (steps 1 and 2) *)

(** [assert(b)] *)
Definition assert_that {St} (b : bool) : M St unit :=
  if b then ret tt else fail AssertFailed.

(** [{ MemoryPool pool(BlockSize); body }]: the pool is constructed, used
    and, at the end of the scope, destroyed. *)
Definition with_local_pool {A} (BlockSize : Z) (fuel : nat) (body : M Obj A) : M Sys A :=
  fun s =>
    match (a <- body ;; MemoryPool_dtor fuel ;; ret a)
            (mkObj (MemoryPool_ctor BlockSize) s) with
    | Ok (a, o) => Ok (a, env o)
    | Fault f => Fault f
    end.

(** [TestBlockAllocation] *)
Definition TestBlockAllocation (spur1 spur2 fuel : nat) : M Sys unit :=
  with_local_pool 1024 fuel
    (init 8 ;;
     p1 <- allocate spur1 ;;
     p2 <- allocate spur2 ;;
     assert_that (negb (p1 =? nullptr)) ;;
     assert_that (negb (p2 =? nullptr)) ;;
     let addr1 := p1 in
     let addr2 := p2 in
     assert_that (wrap64 (addr2 - addr1) =? 8) ;;
     assert_that (addr1 mod 8 =? 0) ;;
     assert_that (addr2 mod 8 =? 0)).

(** [TestReuse] *)
Definition TestReuse (spur1 spur2 spur3 spur4 spur5 spur6 fuel : nat) : M Sys unit :=
  with_local_pool 4096 fuel
    (init 8 ;;
     p1 <- allocate spur1 ;;
     p2 <- allocate spur2 ;;
     let addr1 := p1 in
     deallocate spur3 p1 ;;
     p3 <- allocate spur4 ;;
     let addr3 := p3 in
     assert_that (addr1 =? addr3) ;;
     deallocate spur5 p2 ;;
     deallocate spur6 p3).

(** ** A client that frees what it holds *)

(** The calls of a client that keeps the addresses it was handed in a
    list, most recent first: [Deallocate spur which] gives back the
    address at position [which] and forgets it; a position that holds
    nothing is skipped. *)
Fixpoint holding_client (calls : list call) (live : list Z) : M Obj (list Z) :=
  match calls with
  | [] => ret live
  | Allocate spur :: rest =>
      a <- allocate spur ;;
      holding_client rest (a :: live)
  | Deallocate spur which :: rest =>
      match live !! which with
      | Some ptr =>
          deallocate spur ptr ;;
          holding_client rest (delete which live)
      | None => holding_client rest live
      end
  end.

(** The pool and what the client holds: [L] is the free stack, [cs] the
    chunks taken so far, newest first. *)
Definition live_inv (BlockSize size : Z) (arena0 : list Z)
           (o : Obj) (live L cs : list Z) : Prop :=
  chunk_inv BlockSize size (this o)
  /\ arena0 = rev cs ++ arena (env o)
  /\ ((curSlot_ (this o) = nullptr /\ lastSlot_ (this o) = nullptr)
      \/ In (firstBlock_ (this o)) cs)
  /\ chain_seg (memory (env o)) (freeList_ (this o)) L nullptr
  /\ List.NoDup (live ++ L)
  /\ Forall (fun a => a mod size = 0 /\ in_chunk BlockSize size cs a) (live ++ L)
  /\ forall a, In a (live ++ L) ->
       firstBlock_ (this o) <= a < firstBlock_ (this o) + BlockSize ->
       a + size <= curSlot_ (this o).

(** ** The benchmark *)

(** [class P2 { int id_[5]; };], [class P3 { int id_[10]; };] and
    [class P4 { int id_[20]; };], which [newElement<T>()] value-initializes. *)
Definition P2 : CxxClass := mkClass 20 (fun p m => store_le 20 m p 0) (fun _ m => m).
Definition P3 : CxxClass := mkClass 40 (fun p m => store_le 40 m p 0) (fun _ m => m).
Definition P4 : CxxClass := mkClass 80 (fun p m => store_le 80 m p 0) (fun _ m => m).

(** [T* p = newElement<T>(); deleteElement<T>(p);] *)
Definition new_delete (T : CxxClass) (spur spur' : nat) : M World unit :=
  p <- newElement T spur ;; deleteElement T spur' p.

(** The body of the innermost loop of a worker of [BenchmarkMemoryPool];
    [sp k] is the number of spurious failures of its [k]-th
    compare-and-swap loop. *)
Definition benchmark_body (sp : nat -> nat) : M World unit :=
  new_delete P1 (sp 0%nat) (sp 1%nat) ;;
  new_delete P2 (sp 2%nat) (sp 3%nat) ;;
  new_delete P3 (sp 4%nat) (sp 5%nat) ;;
  new_delete P4 (sp 6%nat) (sp 7%nat).

(** The worker of [BenchmarkMemoryPool] running with no other thread
    (the clock readings, which touch neither the pools nor the system
    allocator, are left out): [rounds] rounds of [ntimes] iterations. *)
Definition benchmark_worker (sp : Z -> Z -> nat -> nat) (ntimes rounds : Z)
  : M World unit :=
  for_loop (Z.to_nat rounds) 0
    (fun j => for_loop (Z.to_nat ntimes) 0 (fun i => benchmark_body (sp j i))).

(** A stretch of a run that leaves the table and the system allocator
    alone and constructs and destroys [k] objects. *)
Definition steady_run (k : nat) (w w' : World) : Prop :=
  memoryPool w' = memoryPool w
  /\ arena (sys w') = arena (sys w)
  /\ news (trace (sys w')) = news (trace (sys w))
  /\ deletes (trace (sys w')) = deletes (trace (sys w))
  /\ constructions (trace (sys w')) = (constructions (trace (sys w)) + k)%nat
  /\ destructions (trace (sys w')) = (destructions (trace (sys w)) + k)%nat.

(** The pool of [T] in the table [l] has a free slot. *)
Definition warm (l : list MemoryPool) (T : CxxClass) : Prop :=
  exists q, l !! Z.to_nat (useMemory_index (sizeof T)) = Some q /\ freeList_ q <> nullptr.

(** ** Callers that write to what they hold *)

(** What a caller of a pool does: ask for a slot, give back the slot at
    position [which] of those it holds, or store the [n] low bytes of
    [v] at offset [off] of a slot it holds.  A store that would leave
    the slot is not made. *)
Inductive action : Type :=
| Alloc (spur : nat)
| Free (spur : nat) (which : nat)
| Write (which : nat) (off : Z) (n : nat) (v : Z).

(** [std::memcpy(ptr + off, &v, n)] by the caller. *)
Definition poke (addr : Z) (n : nat) (v : Z) : M Obj unit :=
  fun o => Ok (tt, mkObj (this o)
                         (mkSys (store_le n (memory (env o)) addr v)
                                (arena (env o)) (trace (env o)))).

(** The run of such a caller on a pool of slots of [size] bytes: the
    slots it holds and every address it was handed, most recent first. *)
Fixpoint writing_client (size : Z) (acts : list action) (live given : list Z)
  : M Obj (list Z * list Z) :=
  match acts with
  | [] => ret (live, given)
  | Alloc spur :: rest =>
      a <- allocate spur ;;
      writing_client size rest (a :: live) (a :: given)
  | Free spur which :: rest =>
      match live !! which with
      | Some ptr => deallocate spur ptr ;; writing_client size rest (delete which live) given
      | None => writing_client size rest live given
      end
  | Write which off n v :: rest =>
      match live !! which with
      | Some ptr =>
          if (0 <=? off) && (off + Z.of_nat n <=? size)
          then poke (ptr + off) n v ;; writing_client size rest live given
          else writing_client size rest live given
      | None => writing_client size rest live given
      end
  end.

(** A pool among others that take chunks from the same system: [pre]
    are the chunks the system gave so far, [cs] those of this pool, [L]
    its free stack in memory, and [H] the addresses of its slots that
    callers hold. *)
Definition pool_inv (BlockSize size : Z) (pre : list Z) (o : Obj)
           (H : Z -> Prop) (L cs : list Z) : Prop :=
  chunk_inv BlockSize size (this o)
  /\ (forall c, In c cs -> In c pre)
  /\ ((curSlot_ (this o) = nullptr /\ lastSlot_ (this o) = nullptr)
      \/ In (firstBlock_ (this o)) cs)
  /\ chain_seg (memory (env o)) (freeList_ (this o)) L nullptr
  /\ List.NoDup L
  /\ (forall a, H a -> ~ In a L)
  /\ forall a, H a \/ In a L ->
       a mod size = 0 /\ in_chunk BlockSize size cs a
       /\ (firstBlock_ (this o) <= a < firstBlock_ (this o) + BlockSize ->
           a + size <= curSlot_ (this o)).








(** * Properties *)

Ltac splits := repeat match goal with |- _ /\ _ => split end.

(** ** Memory: what a stored word changes and what a load reads back *)

Section MemoryFacts.

Lemma store_le_at (n : nat) : forall (m : Memory) (a v x : Z),
  store_le n m a v x =
    if (a <=? x) && (x <? a + Z.of_nat n)
    then (v / 256 ^ (x - a)) mod 256
    else m x.
Proof.
  induction n as [|k IH]; intros m a v x.
  - simpl. destruct (a <=? x) eqn:E1, (x <? a + Z.of_nat 0) eqn:E2; simpl; try reflexivity.
    apply Z.leb_le in E1. apply Z.ltb_lt in E2. lia.
  - cbn [store_le]. rewrite IH. unfold store8.
    destruct (Z.eqb_spec x a) as [->|Hne].
    + replace (a + 1 <=? a) with false by (symmetry; apply Z.leb_gt; lia).
      replace (a <=? a) with true by (symmetry; apply Z.leb_le; lia).
      replace (a <? a + Z.of_nat (S k)) with true by (symmetry; apply Z.ltb_lt; lia).
      simpl. rewrite Z.sub_diag. simpl. now rewrite Z.div_1_r.
    + destruct (Z.leb_spec (a + 1) x) as [H1|H1].
      * replace (a <=? x) with true by (symmetry; apply Z.leb_le; lia).
        replace (x <? a + Z.of_nat (S k)) with (x <? a + 1 + Z.of_nat k)
          by (f_equal; lia).
        simpl. destruct (x <? a + 1 + Z.of_nat k); [|reflexivity].
        rewrite Z.div_div by (try lia; apply Z.pow_pos_nonneg; lia).
        replace (x - a) with (Z.succ (x - (a + 1))) by lia.
        rewrite Z.pow_succ_r by lia. reflexivity.
      * replace (a <=? x) with false by (symmetry; apply Z.leb_gt; lia).
        reflexivity.
Qed.

Lemma store_le_outside (n : nat) (m : Memory) (a v x : Z) :
  x < a \/ a + Z.of_nat n <= x -> store_le n m a v x = m x.
Proof.
  intros H. rewrite store_le_at.
  destruct (Z.leb_spec a x), (Z.ltb_spec x (a + Z.of_nat n)); simpl; try reflexivity; lia.
Qed.

Lemma load_le_ext (n : nat) : forall (m m' : Memory) (a : Z),
  (forall x, a <= x < a + Z.of_nat n -> m x = m' x) ->
  load_le n m a = load_le n m' a.
Proof.
  induction n as [|k IH]; intros m m' a H; [reflexivity|].
  cbn [load_le]. rewrite (H a) by lia. f_equal. f_equal.
  apply IH. intros x Hx. apply H. lia.
Qed.

Lemma load_le_bytes (n : nat) : forall (m : Memory) (a v : Z),
  (forall i, 0 <= i < Z.of_nat n -> m (a + i) mod 256 = (v / 256 ^ i) mod 256) ->
  load_le n m a = v mod 256 ^ Z.of_nat n.
Proof.
  induction n as [|k IH]; intros m a v H.
  - simpl. now rewrite Z.mod_1_r.
  - cbn [load_le]. rewrite (IH m (a + 1) (v / 256)).
    + replace (m a) with (m (a + 0)) by (f_equal; lia).
      rewrite (H 0) by lia. simpl (256 ^ 0). rewrite Z.div_1_r.
      replace (Z.of_nat (S k)) with (Z.succ (Z.of_nat k)) by lia.
      rewrite Z.pow_succ_r by lia.
      rewrite Z.rem_mul_r; [reflexivity | lia | apply Z.pow_pos_nonneg; lia].
    + intros i Hi. replace (a + 1 + i) with (a + (i + 1)) by lia.
      rewrite H by lia.
      rewrite Z.div_div by (try lia; apply Z.pow_pos_nonneg; lia).
      replace (i + 1) with (Z.succ i) by lia.
      rewrite Z.pow_succ_r by lia. reflexivity.
Qed.

Lemma load_le_range (n : nat) : forall (m : Memory) (a : Z),
  0 <= load_le n m a < 256 ^ Z.of_nat n.
Proof.
  induction n as [|k IH]; intros m a.
  - simpl. lia.
  - cbn [load_le]. specialize (IH m (a + 1)).
    replace (Z.of_nat (S k)) with (Z.succ (Z.of_nat k)) by lia.
    rewrite Z.pow_succ_r by lia.
    pose proof (Z.mod_pos_bound (m a) 256). lia.
Qed.

(** A link that was stored is the link that is read. *)
Lemma next_load_store (m m' : Memory) (slot v : Z) :
  (forall x, m' x = next_store m slot v x) ->
  0 <= v < 2 ^ 64 ->
  next_load m' slot = v.
Proof.
  intros Hm Hv. unfold next_load.
  rewrite (load_le_bytes 8 m' slot v).
  - change (256 ^ Z.of_nat 8) with (2 ^ 64). apply Z.mod_small. exact Hv.
  - intros i Hi. rewrite Hm. unfold next_store. rewrite store_le_at.
    replace (slot <=? slot + i) with true by (symmetry; apply Z.leb_le; lia).
    replace (slot + i <? slot + Z.of_nat 8) with true by (symmetry; apply Z.ltb_lt; lia).
    simpl andb. cbv iota. replace (slot + i - slot) with i by lia.
    apply Z.mod_mod. lia.
Qed.


Lemma next_load_range (m : Memory) (slot : Z) : 0 <= next_load m slot < 2 ^ 64.
Proof. exact (load_le_range 8 m slot). Qed.

Lemma next_store_twice (m : Memory) (slot v x : Z) :
  next_store (next_store m slot v) slot v x = next_store m slot v x.
Proof.
  unfold next_store. rewrite (store_le_at 8 (store_le 8 m slot v)).
  rewrite (store_le_at 8 m).
  destruct ((slot <=? x) && (x <? slot + Z.of_nat 8)); reflexivity.
Qed.

End MemoryFacts.

(** ** The free stack in one thread *)

Section FreeStack.

Lemma pushFreeList_retry (k : nat) (slot : Z) (p : MemoryPool) (s : Sys) :
  pushFreeList (S k) slot (mkObj p s) =
  pushFreeList k slot
    (mkObj p (mkSys (next_store (memory s) slot (freeList_ p)) (arena s) (trace s))).
Proof. reflexivity. Qed.

(** However often the compare-and-swap fails spuriously, a push links the
    slot to the old head and makes it the head. *)
Lemma pushFreeList_spec (spur : nat) (slot : Z) (p : MemoryPool) : forall s : Sys,
  exists m' : Memory,
    pushFreeList spur slot (mkObj p s) =
      Ok (true, mkObj (set_freeList slot p) (mkSys m' (arena s) (trace s)))
    /\ forall x, m' x = next_store (memory s) slot (freeList_ p) x.
Proof.
  induction spur as [|k IH]; intros s.
  - exists (next_store (memory s) slot (freeList_ p)). split; [|reflexivity].
    unfold pushFreeList, bind, self, write_next, compare_exchange_weak, ret.
    cbn. now rewrite Z.eqb_refl.
  - rewrite pushFreeList_retry.
    destruct (IH (mkSys (next_store (memory s) slot (freeList_ p)) (arena s) (trace s)))
      as (m' & Hrun & Hm').
    exists m'. split; [exact Hrun|].
    intros x. rewrite Hm'. cbn [memory]. apply next_store_twice.
Qed.

Lemma popFreeList_retry (k : nat) (o : Obj) :
  freeList_ (this o) <> nullptr ->
  popFreeList (S k) o = popFreeList k o.
Proof.
  intros H. destruct o as [p s].
  unfold popFreeList at 1. unfold bind at 1. unfold self at 1. cbn [this].
  destruct (Z.eqb_spec (freeList_ p) nullptr) as [E|_]; [contradiction|].
  reflexivity.
Qed.

(** A pop of the empty stack returns null and changes nothing; otherwise
    it returns the head and the head's link becomes the head. *)
Lemma popFreeList_spec (spur : nat) (p : MemoryPool) (s : Sys) :
  popFreeList spur (mkObj p s) =
    if freeList_ p =? nullptr then Ok (nullptr, mkObj p s)
    else Ok (freeList_ p,
             mkObj (set_freeList (next_load (memory s) (freeList_ p)) p) s).
Proof.
  induction spur as [|k IH].
  - unfold popFreeList, bind, self, read_next, compare_exchange_weak, ret. cbn.
    destruct (freeList_ p =? nullptr); [reflexivity|]. now rewrite Z.eqb_refl.
  - destruct (Z.eqb_spec (freeList_ p) nullptr) as [E|N].
    + unfold popFreeList, bind, self, ret. cbn. rewrite E. reflexivity.
    + rewrite popFreeList_retry by exact N. rewrite IH.
      destruct (Z.eqb_spec (freeList_ p) nullptr); [contradiction | reflexivity].
Qed.

Lemma deallocate_null (spur : nat) (o : Obj) :
  deallocate spur nullptr o = Ok (tt, o).
Proof. reflexivity. Qed.

Lemma deallocate_spec (spur : nat) (ptr : Z) (p : MemoryPool) (s : Sys) :
  ptr <> nullptr ->
  exists m' : Memory,
    deallocate spur ptr (mkObj p s) =
      Ok (tt, mkObj (set_freeList ptr p) (mkSys m' (arena s) (trace s)))
    /\ forall x, m' x = next_store (memory s) ptr (freeList_ p) x.
Proof.
  intros Hp. destruct (pushFreeList_spec spur ptr p s) as (m' & Hrun & Hm').
  exists m'. split; [|exact Hm'].
  unfold deallocate. destruct (Z.eqb_spec ptr nullptr); [contradiction|].
  unfold bind. rewrite Hrun. reflexivity.
Qed.

(** [allocate] when the free stack has a node: the reuse path. *)
Lemma allocate_reuse (spur : nat) (p : MemoryPool) (s : Sys) :
  freeList_ p <> nullptr ->
  allocate spur (mkObj p s) =
    Ok (freeList_ p,
        mkObj (set_freeList (next_load (memory s) (freeList_ p)) p) s).
Proof.
  intros H. unfold allocate, bind. rewrite popFreeList_spec.
  destruct (Z.eqb_spec (freeList_ p) nullptr); [contradiction|].
  destruct (Z.eqb_spec (freeList_ p) nullptr); [contradiction|]. reflexivity.
Qed.

(** [allocate] with the free stack empty and room in the chunk. *)
Lemma allocate_bump (spur : nat) (p : MemoryPool) (s : Sys) :
  freeList_ p = nullptr ->
  curSlot_ p < lastSlot_ p ->
  allocate spur (mkObj p s) =
    Ok (curSlot_ p,
        mkObj (set_curSlot (bump p (curSlot_ p)) p)
              (mkSys (memory s) (arena s) (trace s ++ [EvLock] ++ [EvUnlock]))).
Proof.
  intros Hf Hlt. unfold allocate, bind. rewrite popFreeList_spec, Hf. cbn.
  replace (curSlot_ p >=? lastSlot_ p) with false
    by (symmetry; rewrite Z.geb_leb; apply Z.leb_gt; lia).
  cbn. rewrite <- app_assoc. reflexivity.
Qed.

(** [allocate] with the free stack empty and the chunk used up (or no
    chunk yet): a chunk is taken from the system first. *)
Lemma allocate_grow (spur : nat) (p : MemoryPool) (s : Sys) (blk : Z) (rest : list Z) :
  freeList_ p = nullptr ->
  lastSlot_ p <= curSlot_ p ->
  arena s = blk :: rest ->
  to_size_t (SlotSize_ p) <> 0 ->
  let data := ptr_add blk sizeof_Slot_ptr in
  let rem := data mod to_size_t (SlotSize_ p) in
  let first := ptr_add data (if rem =? 0 then 0 else to_size_t (SlotSize_ p) - rem) in
  let last := wrap64 (blk + to_size_t (BlockSize_ p) - to_size_t (SlotSize_ p) + 1) in
  allocate spur (mkObj p s) =
    Ok (first,
        mkObj (mkPool (BlockSize_ p) (SlotSize_ p) blk (bump p first) last nullptr)
              (mkSys (next_store (memory s) blk (firstBlock_ p)) rest
                     (trace s ++ [EvLock] ++ [EvNew (to_size_t (BlockSize_ p)) blk]
                              ++ [EvUnlock]))).
Proof.
  intros Hf Hge Ha Hs data rem first last.
  unfold allocate, bind. rewrite popFreeList_spec, Hf. cbn.
  replace (curSlot_ p >=? lastSlot_ p) with true
    by (symmetry; rewrite Z.geb_leb; apply Z.leb_le; lia).
  unfold allocateNewBlock, bind, self, operator_new, sys_new, padPointer. cbn.
  rewrite Ha.
  destruct (Z.eqb_spec (to_size_t (SlotSize_ p)) 0) as [E|_]; [contradiction|].
  unfold ret, update, emit, write_next, bump, set_curSlot, set_lastSlot, set_firstBlock.
  cbn. rewrite Hf. repeat rewrite <- app_assoc. reflexivity.
Qed.

End FreeStack.

(** ** Reuse, contiguity and the frame of [deallocate] *)

(** C2 (reuse, last in first out): allocate [A], allocate [B], deallocate
    [A]; the next [allocate] returns [A], whatever the pool's state was and
    however often the compare-and-swaps fail spuriously. *)
Theorem lifo_reuse (n1 n2 n3 n4 : nat) (o o1 o2 : Obj) (A B : Z) :
  allocate n1 o = Ok (A, o1) ->
  allocate n2 o1 = Ok (B, o2) ->
  A <> nullptr ->
  exists o3 o4,
    deallocate n3 A o2 = Ok (tt, o3) /\ allocate n4 o3 = Ok (A, o4).
Proof.
  intros _ _ HA. destruct o2 as [p2 s2].
  destruct (deallocate_spec n3 A p2 s2 HA) as (m' & Hd & _).
  eexists. eexists. split; [exact Hd|].
  apply allocate_reuse. exact HA.
Qed.

Lemma lifo_reuse_witness :
  exists o3 o4,
    deallocate 2 65544 (mkObj (mkPool 4096 8 65536 65560 69625 0)
                               (mkSys (next_store zero_memory 65536 0) []
                                      [EvLock; EvNew 4096 65536; EvUnlock; EvLock; EvUnlock]))
      = Ok (tt, o3)
    /\ allocate 3 o3 = Ok (65544, o4).
Proof.
  apply (lifo_reuse 1 0 2 3
           (mkObj (mkPool 4096 8 0 0 0 0) (fresh_sys [65536]))
           (mkObj (mkPool 4096 8 65536 65552 69625 0)
                  (mkSys (next_store zero_memory 65536 0) []
                         [EvLock; EvNew 4096 65536; EvUnlock]))
           _ 65544 65552).
  - reflexivity.
  - reflexivity.
  - discriminate.
Defined.

Lemma wrap64_small (z : Z) : 0 <= z < 2 ^ 64 -> wrap64 z = z.
Proof. intros H. unfold wrap64. now apply Z.mod_small. Qed.

Lemma to_size_t_small (z : Z) : 0 <= z < 2 ^ 31 -> to_size_t z = z.
Proof. intros H. unfold to_size_t. apply wrap64_small. lia. Qed.

Lemma to_int_small (z : Z) : 0 <= z < 2 ^ 31 -> to_int z = z.
Proof.
  intros H. unfold to_int. rewrite Z.mod_small by lia.
  destruct (Z.ltb_spec z (2 ^ 31)); [reflexivity | lia].
Qed.

(** The cursor moves by whole [Slot]s: by the slot size rounded down to a
    multiple of eight. *)
Lemma bump_unfold (p : MemoryPool) (cur : Z) :
  0 <= SlotSize_ p < 2 ^ 31 ->
  bump p cur = wrap64 (cur + 8 * (SlotSize_ p / 8)).
Proof.
  intros H. unfold bump, ptr_add, sizeof_Slot.
  rewrite (to_size_t_small (SlotSize_ p)) by exact H. reflexivity.
Qed.

Lemma bump_exact (p : MemoryPool) (cur : Z) :
  0 <= SlotSize_ p < 2 ^ 31 ->
  SlotSize_ p mod sizeof_Slot = 0 ->
  0 <= cur -> cur + SlotSize_ p < 2 ^ 64 ->
  bump p cur = cur + SlotSize_ p.
Proof.
  intros HS Hm Hc Hlt. rewrite bump_unfold by exact HS.
  unfold sizeof_Slot in Hm.
  replace (8 * (SlotSize_ p / 8)) with (SlotSize_ p)
    by (pose proof (Z.div_mod (SlotSize_ p) 8); lia).
  apply wrap64_small. lia.
Qed.

(** C3, as stated, fails: a pool with slot size 12.  After its first
    allocation the free stack is empty and the cursor (4112) is below the
    boundary (8181); the next allocation returns the cursor and moves it to
    4120, eight bytes on and not twelve, and the allocation after that
    returns 4120. *)
Lemma bump_by_slot_size_counterexample :
  exists o o1 o2,
    session 4096 12 [Allocate 0] (fresh_sys [4096]) = Ok ([4104], o)
    /\ SlotSize_ (this o) = 12
    /\ freeList_ (this o) = nullptr
    /\ curSlot_ (this o) = 4112 /\ lastSlot_ (this o) = 8181
    /\ allocate 0 o = Ok (4112, o1)
    /\ curSlot_ (this o1) = 4120
    /\ curSlot_ (this o1) <> curSlot_ (this o) + SlotSize_ (this o)
    /\ allocate 0 o1 = Ok (4120, o2)
    /\ 4120 - 4112 <> SlotSize_ (this o).
Proof.
  do 3 eexists.
  split; [vm_compute; reflexivity|].
  repeat split; try (vm_compute; reflexivity); vm_compute; discriminate.
Qed.

(** C3, amended: with a slot size that is a multiple of [sizeof(Slot)] (8),
    the free stack empty and the cursor below the boundary, [allocate]
    returns the cursor and moves it on by exactly the slot size; if the
    cursor is then still below the boundary, the next [allocate] returns
    an address exactly the slot size further on. *)
Theorem bump_contiguous (spur spur' : nat) (p : MemoryPool) (s : Sys) :
  0 < SlotSize_ p < 2 ^ 31 ->
  SlotSize_ p mod sizeof_Slot = 0 ->
  freeList_ p = nullptr ->
  0 <= curSlot_ p < lastSlot_ p ->
  curSlot_ p + SlotSize_ p < 2 ^ 64 ->
  exists o1,
    allocate spur (mkObj p s) = Ok (curSlot_ p, o1)
    /\ curSlot_ (this o1) = curSlot_ p + SlotSize_ p
    /\ (curSlot_ p + SlotSize_ p < lastSlot_ p ->
        exists o2, allocate spur' o1 = Ok (curSlot_ p + SlotSize_ p, o2)).
Proof.
  intros HS Hm Hf Hc Hlt.
  eexists. split; [apply allocate_bump; [exact Hf | lia]|].
  cbn [this curSlot_ set_curSlot].
  rewrite bump_exact by lia.
  split; [reflexivity|].
  intros Hroom. eexists.
  rewrite allocate_bump; cbn [curSlot_ lastSlot_ freeList_ set_curSlot];
    [reflexivity | exact Hf | lia].
Qed.

Lemma bump_contiguous_witness :
  exists o1,
    allocate 0 (mkObj (mkPool 4096 8 65536 65552 69625 0) (fresh_sys [])) = Ok (65552, o1)
    /\ curSlot_ (this o1) = 65552 + 8
    /\ (65552 + 8 < 69625 -> exists o2, allocate 1 o1 = Ok (65552 + 8, o2)).
Proof.
  apply (bump_contiguous 0 1 (mkPool 4096 8 65536 65552 69625 0) (fresh_sys []));
    cbn; try reflexivity; lia.
Defined.

(** C10: [deallocate] of a non-null address changes the head of the free
    stack and the first word of the freed slot, and nothing else: slot
    size, chunk size, cursor, boundary and chunk list are as before, every
    byte outside the slot's first word is as before, no lock is taken and
    the system allocator is not called. *)
Theorem deallocate_frame (spur : nat) (ptr : Z) (p : MemoryPool) (s : Sys) :
  ptr <> nullptr ->
  exists p' s',
    deallocate spur ptr (mkObj p s) = Ok (tt, mkObj p' s')
    /\ freeList_ p' = ptr
    /\ SlotSize_ p' = SlotSize_ p /\ BlockSize_ p' = BlockSize_ p
    /\ curSlot_ p' = curSlot_ p /\ lastSlot_ p' = lastSlot_ p
    /\ firstBlock_ p' = firstBlock_ p
    /\ (forall x, x < ptr \/ ptr + sizeof_Slot_ptr <= x -> memory s' x = memory s x)
    /\ (0 <= freeList_ p < 2 ^ 64 -> next_load (memory s') ptr = freeList_ p)
    /\ arena s' = arena s
    /\ trace s' = trace s.
Proof.
  intros Hp. destruct (deallocate_spec spur ptr p s Hp) as (m' & Hd & Hm').
  eexists. eexists. split; [exact Hd|].
  cbn. repeat split.
  - intros x Hx. rewrite Hm'. unfold next_store. apply store_le_outside.
    unfold sizeof_Slot_ptr in Hx. lia.
  - intros Hr. now apply (next_load_store (memory s) m' ptr (freeList_ p)).
Qed.

Lemma deallocate_frame_witness :
  exists p' s',
    deallocate 1 65544 (mkObj (mkPool 4096 8 65536 65552 69625 0) (fresh_sys []))
      = Ok (tt, mkObj p' s')
    /\ freeList_ p' = 65544
    /\ SlotSize_ p' = 8 /\ BlockSize_ p' = 4096
    /\ curSlot_ p' = 65552 /\ lastSlot_ p' = 69625
    /\ firstBlock_ p' = 65536
    /\ (forall x, x < 65544 \/ 65544 + sizeof_Slot_ptr <= x -> memory s' x = zero_memory x)
    /\ (0 <= 0 < 2 ^ 64 -> next_load (memory s') 65544 = 0)
    /\ arena s' = []
    /\ trace s' = [].
Proof.
  apply (deallocate_frame 1 65544 (mkPool 4096 8 65536 65552 69625 0) (fresh_sys [])).
  discriminate.
Defined.

(** ** The three ways an allocation goes *)

Lemma allocate_grow_fails (spur : nat) (p : MemoryPool) (s : Sys) :
  freeList_ p = nullptr ->
  lastSlot_ p <= curSlot_ p ->
  arena s = [] ->
  allocate spur (mkObj p s) = Fault BadAlloc.
Proof.
  intros Hf Hge Ha. unfold allocate, bind. rewrite popFreeList_spec, Hf. cbn.
  replace (curSlot_ p >=? lastSlot_ p) with true
    by (symmetry; rewrite Z.geb_leb; apply Z.leb_le; lia).
  unfold allocateNewBlock, bind, self, operator_new, sys_new. cbn.
  rewrite Ha. reflexivity.
Qed.

Lemma allocate_grow_zero (spur : nat) (p : MemoryPool) (s : Sys) :
  freeList_ p = nullptr ->
  lastSlot_ p <= curSlot_ p ->
  to_size_t (SlotSize_ p) = 0 ->
  exists f, allocate spur (mkObj p s) = Fault f.
Proof.
  intros Hf Hge Hz. unfold allocate, bind. rewrite popFreeList_spec, Hf. cbn.
  replace (curSlot_ p >=? lastSlot_ p) with true
    by (symmetry; rewrite Z.geb_leb; apply Z.leb_le; lia).
  unfold allocateNewBlock, bind, self, operator_new, sys_new, padPointer. cbn.
  destruct (arena s) as [|blk rest]; [now exists BadAlloc|].
  cbn. rewrite Hz. now exists DivideByZero.
Qed.

Lemma allocate_cases (spur : nat) (p : MemoryPool) (s : Sys) (a : Z) (o' : Obj) :
  allocate spur (mkObj p s) = Ok (a, o') ->
  allocation p s a o'.
Proof.
  intros H.
  destruct (Z.eq_dec (freeList_ p) nullptr) as [Hf|Hf].
  - destruct (Z.lt_ge_cases (curSlot_ p) (lastSlot_ p)) as [Hlt|Hge].
    + rewrite allocate_bump in H by assumption.
      injection H as <- <-. now apply alloc_bump.
    + destruct (Z.eq_dec (to_size_t (SlotSize_ p)) 0) as [Hz|HS].
      { destruct (allocate_grow_zero spur p s Hf Hge Hz) as (f & Hfault).
        rewrite Hfault in H. discriminate. }
      destruct (arena s) as [|blk rest] eqn:Ha.
      * rewrite allocate_grow_fails in H by assumption. discriminate.
      * rewrite (allocate_grow spur p s blk rest) in H by assumption.
        injection H as <- <-. now apply (alloc_grow p s _ _ blk rest).
  - rewrite allocate_reuse in H by assumption.
    injection H as <- <-. now apply alloc_reuse.
Qed.

Lemma pad_aligned (d size : Z) :
  0 < size ->
  let rem := d mod size in
  let pad := if rem =? 0 then 0 else size - rem in
  0 <= pad < size /\ (d + pad) mod size = 0.
Proof.
  intros Hs rem pad. subst pad.
  pose proof (Z.mod_pos_bound d size Hs) as Hb. fold rem in Hb.
  destruct (Z.eqb_spec rem 0) as [E|N].
  - split; [lia|]. rewrite Z.add_0_r. exact E.
  - split; [lia|].
    replace (d + (size - rem)) with ((d - rem) + 1 * size) by lia.
    rewrite Z.mod_add by lia. subst rem.
    rewrite Zminus_mod, Zmod_mod, Z.sub_diag. apply Zmod_0_l.
Qed.

Lemma mod_add_self (a size : Z) :
  size <> 0 -> a mod size = 0 -> (a + size) mod size = 0.
Proof.
  intros Hs Ha. replace (a + size) with (a + 1 * size) by lia.
  rewrite Z.mod_add by exact Hs. exact Ha.
Qed.

(** ** Cursor and boundary *)

Lemma pool_after_init (BlockSize size : Z) (s : Sys) :
  0 < size < 2 ^ 31 ->
  0 <= BlockSize < 2 ^ 31 ->
  init size (mkObj (MemoryPool_ctor BlockSize) s) =
    Ok (tt, mkObj (mkPool BlockSize size nullptr nullptr nullptr nullptr) s).
Proof.
  intros Hs Hb. unfold init, update, MemoryPool_ctor.
  destruct (Z.gtb_spec size 0) as [_|H]; [|lia].
  cbn. rewrite !to_int_small by lia. reflexivity.
Qed.

Section Chunks.

Variables BlockSize size : Z.
Hypothesis size_pos : 0 < size.
Hypothesis size_slots : size mod sizeof_Slot = 0.
Hypothesis size_fits : 2 * size + 7 <= BlockSize.
Hypothesis block_int : BlockSize < 2 ^ 31.

Lemma chunk_inv_init :
  chunk_inv BlockSize size (mkPool BlockSize size nullptr nullptr nullptr nullptr).
Proof. unfold chunk_inv. cbn. auto. Qed.

Lemma chunk_inv_allocate (spur : nat) (o o' : Obj) (a : Z) :
  chunk_inv BlockSize size (this o) ->
  sane_arena BlockSize (env o) ->
  allocate spur o = Ok (a, o') ->
  chunk_inv BlockSize size (this o') /\ sane_arena BlockSize (env o').
Proof.
  destruct o as [p s]. cbn [this env].
  intros (HB & HS & Hc) Hsane Hrun.
  assert (Hsz : to_size_t (SlotSize_ p) = size)
    by (rewrite HS; apply to_size_t_small; lia).
  assert (Hbz : to_size_t (BlockSize_ p) = BlockSize)
    by (rewrite HB; apply to_size_t_small; lia).
  assert (Hbump : forall cur, 0 <= cur -> cur + size < 2 ^ 64 ->
                              bump p cur = cur + size).
  { intros cur Hlo Hhi. rewrite <- HS. apply bump_exact; rewrite ?HS; try assumption; lia. }
  apply allocate_cases in Hrun.
  destruct Hrun as [Hf Ha Ho | Hf Hlt Ha Ho | blk rest Hf Hge Harena Ha Ho]; subst o'.
  - split; [|exact Hsane]. unfold chunk_inv. cbn. auto.
  - split; [|exact Hsane].
    destruct Hc as [(Hc0 & Hl0) | (Hfb & Hend & Hl & Hlo & Hhi & Hal)];
      [unfold nullptr in *; lia|].
    unfold sizeof_Slot_ptr in *.
    unfold chunk_inv. cbn. split; [exact HB|]. split; [exact HS|]. right.
    rewrite Hbump by lia. unfold sizeof_Slot_ptr.
    splits; try lia.
    apply mod_add_self; [lia | exact Hal].
  - unfold sane_arena in Hsane. rewrite Harena in Hsane.
    apply Forall_cons in Hsane as ((Hblk & Hend) & Hrest).
    split; [|exact Hrest].
    unfold chunk_inv. cbn. split; [exact HB|]. split; [exact HS|]. right.
    unfold first_slot, boundary. rewrite Hsz, Hbz.
    unfold ptr_add, sizeof_Slot_ptr.
    rewrite (wrap64_small (blk + 8)) by lia.
    destruct (pad_aligned (blk + 8) size size_pos) as (Hpad & Hmod).
    cbv zeta in Hpad, Hmod.
    set (pad := if (blk + 8) mod size =? 0 then 0 else size - (blk + 8) mod size) in *.
    rewrite (wrap64_small (blk + 8 + pad)) by lia.
    rewrite (wrap64_small (blk + BlockSize - size + 1)) by lia.
    rewrite Hbump by lia. unfold sizeof_Slot_ptr.
    splits; try lia.
    apply mod_add_self; [lia | exact Hmod].
Qed.

(** A slot taken from the cursor lies in the newest chunk, after its
    header word, and the cursor is left at the slot's end. *)
Lemma fresh_slot_in_chunk (spur : nat) (p : MemoryPool) (s : Sys) (a : Z) (o' : Obj) :
  chunk_inv BlockSize size p ->
  sane_arena BlockSize s ->
  freeList_ p = nullptr ->
  allocate spur (mkObj p s) = Ok (a, o') ->
  firstBlock_ (this o') + sizeof_Slot_ptr <= a
  /\ a + size = curSlot_ (this o')
  /\ curSlot_ (this o') <= firstBlock_ (this o') + BlockSize.
Proof.
  intros (HB & HS & Hc) Hsane Hfree Hrun.
  assert (Hsz : to_size_t (SlotSize_ p) = size)
    by (rewrite HS; apply to_size_t_small; lia).
  assert (Hbz : to_size_t (BlockSize_ p) = BlockSize)
    by (rewrite HB; apply to_size_t_small; lia).
  assert (Hbump : forall cur, 0 <= cur -> cur + size < 2 ^ 64 ->
                              bump p cur = cur + size).
  { intros cur Hlo Hhi. rewrite <- HS. apply bump_exact; rewrite ?HS; try assumption; lia. }
  apply allocate_cases in Hrun.
  destruct Hrun as [Hf Ha Ho | Hf Hlt Ha Ho | blk rest Hf Hge Harena Ha Ho]; subst o'.
  - contradiction.
  - destruct Hc as [(Hc0 & Hl0) | (Hfb & Hend & Hl & Hlo & Hhi & Hal)];
      [unfold nullptr in *; lia|].
    unfold sizeof_Slot_ptr in *. cbn. rewrite Hbump by lia. lia.
  - unfold sane_arena in Hsane. rewrite Harena in Hsane.
    apply Forall_cons in Hsane as ((Hblk & Hend) & Hrest).
    subst a. cbn. unfold first_slot. rewrite Hsz.
    unfold ptr_add, sizeof_Slot_ptr.
    rewrite (wrap64_small (blk + 8)) by lia.
    destruct (pad_aligned (blk + 8) size size_pos) as (Hpad & Hmod).
    cbv zeta in Hpad, Hmod.
    set (pad := if (blk + 8) mod size =? 0 then 0 else size - (blk + 8) mod size) in *.
    rewrite (wrap64_small (blk + 8 + pad)) by lia.
    rewrite Hbump by lia. lia.
Qed.

Lemma chunk_inv_deallocate (spur : nat) (ptr : Z) (o o' : Obj) :
  chunk_inv BlockSize size (this o) ->
  sane_arena BlockSize (env o) ->
  deallocate spur ptr o = Ok (tt, o') ->
  chunk_inv BlockSize size (this o') /\ sane_arena BlockSize (env o').
Proof.
  destruct o as [p s]. cbn [this env]. intros Hc Hsane Hrun.
  destruct (Z.eq_dec ptr nullptr) as [->|Hp].
  - rewrite deallocate_null in Hrun. injection Hrun as <-. auto.
  - destruct (deallocate_spec spur ptr p s Hp) as (m' & Hd & _).
    rewrite Hd in Hrun. injection Hrun as <-. split; [|exact Hsane].
    unfold chunk_inv in *. cbn. exact Hc.
Qed.

Lemma chunk_inv_client (calls : list call) : forall (given R : list Z) (o o' : Obj),
  chunk_inv BlockSize size (this o) ->
  sane_arena BlockSize (env o) ->
  client calls given o = Ok (R, o') ->
  chunk_inv BlockSize size (this o').
Proof.
  induction calls as [|[spur|spur which] rest IH]; intros given R o o' Hc Hs Hrun.
  - cbn in Hrun. injection Hrun as <- <-. exact Hc.
  - cbn [client] in Hrun. unfold bind in Hrun.
    destruct (allocate spur o) as [[a o1]|f] eqn:Ha; [|discriminate].
    destruct (chunk_inv_allocate spur o o1 a Hc Hs Ha) as (Hc1 & Hs1).
    exact (IH _ _ _ _ Hc1 Hs1 Hrun).
  - cbn [client] in Hrun. unfold bind in Hrun.
    destruct (deallocate spur (nth which given nullptr) o) as [[[] o1]|f] eqn:Hd;
      [|discriminate].
    destruct (chunk_inv_deallocate spur _ o o1 Hc Hs Hd) as (Hc1 & Hs1).
    exact (IH _ _ _ _ Hc1 Hs1 Hrun).
Qed.

End Chunks.

(** C5, as stated, fails: a pool with slot size 512 and chunks of 4096
    bytes.  The seventh allocation hands out the last slot of the chunk
    (at 69120, below the boundary 69121) and leaves the cursor at the end
    of the chunk, 69632, above the boundary. *)
Lemma cursor_le_boundary_counterexample :
  exists o,
    session 4096 512
      [Allocate 0; Allocate 0; Allocate 0; Allocate 0; Allocate 0; Allocate 0; Allocate 0]
      (fresh_sys [65536])
    = Ok ([69120; 68608; 68096; 67584; 67072; 66560; 66048], o)
    /\ curSlot_ (this o) = 69632
    /\ lastSlot_ (this o) = 69121
    /\ ~ curSlot_ (this o) <= lastSlot_ (this o).
Proof.
  eexists. split; [vm_compute; reflexivity|].
  repeat split; try reflexivity. vm_compute. intros H. apply H. reflexivity.
Qed.

(** C5, amended: for a slot size that is a multiple of 8 with
    [2 * size + 7 <= BlockSize], after any calls on an initialized pool the
    pool either has no chunk yet (cursor and boundary null) or its boundary
    is [chunk + BlockSize - size + 1] for the newest chunk and its cursor
    is a multiple of the slot size past the chunk's header word and at
    most [boundary + size - 1], the end of the chunk. *)
Theorem cursor_within_chunk (BlockSize size : Z) (calls : list call)
        (s : Sys) (R : list Z) (o : Obj) :
  0 < size ->
  size mod sizeof_Slot = 0 ->
  2 * size + 7 <= BlockSize ->
  BlockSize < 2 ^ 31 ->
  sane_arena BlockSize s ->
  session BlockSize size calls s = Ok (R, o) ->
  (curSlot_ (this o) = nullptr /\ lastSlot_ (this o) = nullptr)
  \/ (lastSlot_ (this o) = firstBlock_ (this o) + BlockSize - size + 1
      /\ firstBlock_ (this o) + sizeof_Slot_ptr <= curSlot_ (this o)
      /\ curSlot_ (this o) mod size = 0
      /\ curSlot_ (this o) <= lastSlot_ (this o) + size - 1).
Proof.
  intros H1 H2 H3 H4 Hs Hrun. unfold session, bind in Hrun.
  rewrite pool_after_init in Hrun by lia.
  apply (chunk_inv_client BlockSize size H1 H2 H3 H4) in Hrun;
    [| apply chunk_inv_init | exact Hs].
  destruct Hrun as (_ & _ & [Hfresh | (Hfb & Hend & Hl & Hlo & Hhi & Hal)]).
  - left. exact Hfresh.
  - right. repeat split; try assumption. lia.
Qed.

Lemma cursor_within_chunk_witness :
  (69632 = nullptr /\ 69121 = nullptr)
  \/ (69121 = 65536 + 4096 - 512 + 1
      /\ 65536 + sizeof_Slot_ptr <= 69632
      /\ 69632 mod 512 = 0
      /\ 69632 <= 69121 + 512 - 1).
Proof.
  refine (cursor_within_chunk 4096 512
           [Allocate 0; Allocate 0; Allocate 0; Allocate 0; Allocate 0; Allocate 0; Allocate 0]
           (fresh_sys [65536])
           [69120; 68608; 68096; 67584; 67072; 66560; 66048]
           (mkObj (mkPool 4096 512 65536 69632 69121 0)
                  (mkSys (next_store zero_memory 65536 0) []
                         [EvLock; EvNew 4096 65536; EvUnlock; EvLock; EvUnlock;
                          EvLock; EvUnlock; EvLock; EvUnlock; EvLock; EvUnlock;
                          EvLock; EvUnlock; EvLock; EvUnlock]))
           _ _ _ _ _ _).
  - lia.
  - reflexivity.
  - lia.
  - lia.
  - repeat constructor.
  - reflexivity.
Defined.

(** ** The router *)

Section Router.

Lemma static_length (w : World) :
  registry_ok w -> length (static_memoryPool w) = Z.to_nat MEMORY_POOL_NUM.
Proof.
  unfold registry_ok, static_memoryPool.
  destruct (memoryPool w); [auto|]. intros _. apply length_replicate.
Qed.

(** A member function called through [getMemoryPool(index)] runs on
    element [index] of the array and its effect is stored there. *)
Lemma on_pool_spec {A} (index : Z) (f : M Obj A) (w : World) :
  registry_ok w ->
  0 <= index < MEMORY_POOL_NUM ->
  exists p,
    static_memoryPool w !! Z.to_nat index = Some p
    /\ getMemoryPool index w = Ok (p, mkWorld (Some (static_memoryPool w)) (sys w))
    /\ on_pool index f w =
         match f (mkObj p (sys w)) with
         | Ok (a, o) =>
             Ok (a, mkWorld (Some (<[Z.to_nat index := this o]> (static_memoryPool w)))
                            (env o))
         | Fault e => Fault e
         end.
Proof.
  intros Hok Hi.
  destruct (lookup_lt_is_Some_2 (static_memoryPool w) (Z.to_nat index)) as (p & Hp).
  { rewrite static_length by exact Hok. unfold MEMORY_POOL_NUM in *. lia. }
  exists p. split; [exact Hp|].
  assert (Hget : getMemoryPool index w
                 = Ok (p, mkWorld (Some (static_memoryPool w)) (sys w))).
  { unfold getMemoryPool.
    destruct (Z.ltb_spec index 0); [lia|].
    destruct (Z.leb_spec MEMORY_POOL_NUM index); [lia|].
    cbn. rewrite Hp. reflexivity. }
  split; [exact Hget|].
  unfold on_pool, bind. rewrite Hget. reflexivity.
Qed.

Lemma on_pool_out_of_bounds {A} (index : Z) (f : M Obj A) (w : World) :
  index < 0 \/ MEMORY_POOL_NUM <= index ->
  on_pool index f w = Fault OutOfBounds.
Proof.
  intros Hi. unfold on_pool, bind, getMemoryPool.
  destruct (Z.ltb_spec index 0); [reflexivity|].
  destruct (Z.leb_spec MEMORY_POOL_NUM index); [reflexivity|]. lia.
Qed.

(** The index of a size the table covers: [ceil(size / 8) - 1]. *)
Lemma useMemory_index_spec (size : Z) :
  1 <= size <= MAX_SLOT_SIZE ->
  useMemory_index size = (size + 7) / 8 - 1
  /\ 0 <= useMemory_index size < MEMORY_POOL_NUM
  /\ SLOT_BASE_SIZE * useMemory_index size < size
       <= SLOT_BASE_SIZE * (useMemory_index size + 1).
Proof.
  unfold MAX_SLOT_SIZE, MEMORY_POOL_NUM, SLOT_BASE_SIZE. intros Hs.
  assert (Hq : 1 <= (size + 7) / 8 <= 64).
  { split; [apply Z.div_le_lower_bound; lia|].
    enough ((size + 7) / 8 < 65) by lia. apply Z.div_lt_upper_bound; lia. }
  assert (E : useMemory_index size = (size + 7) / 8 - 1).
  { unfold useMemory_index, SLOT_BASE_SIZE.
    replace (size + 8 - 1) with (size + 7) by lia.
    rewrite (wrap64_small (size + 7)) by lia.
    rewrite wrap64_small by lia. apply to_int_small. lia. }
  rewrite E. split; [reflexivity|]. split; [lia|].
  pose proof (Z.div_mod (size + 7) 8). pose proof (Z.mod_pos_bound (size + 7) 8). lia.
Qed.

Lemma freeMemory_index_spec (size : Z) :
  1 <= size <= MAX_SLOT_SIZE ->
  freeMemory_index size = useMemory_index size.
Proof.
  intros Hs. unfold freeMemory_index, useMemory_index, SLOT_BASE_SIZE.
  replace (size + 8 - 1) with (size + 7) by lia. reflexivity.
Qed.

End Router.

(** C1 (router boundary): a request of [MAX_SLOT_SIZE] (512) bytes is an
    allocation from the last pool, index [MEMORY_POOL_NUM - 1] (63), the
    index being [ceil(512 / 8) - 1]; a request of 513 bytes is a call of
    [operator new] that leaves the table as it is (not even constructed,
    if it was not); a request of 0 bytes returns null. *)
Theorem router_boundary (spur : nat) (w : World) :
  useMemory_index MAX_SLOT_SIZE = MEMORY_POOL_NUM - 1
  /\ SLOT_BASE_SIZE * (MEMORY_POOL_NUM - 1) < MAX_SLOT_SIZE <= SLOT_BASE_SIZE * MEMORY_POOL_NUM
  /\ useMemory spur MAX_SLOT_SIZE w = on_pool (MEMORY_POOL_NUM - 1) (allocate spur) w
  /\ useMemory spur (MAX_SLOT_SIZE + 1) w =
       match arena (sys w) with
       | [] => Fault BadAlloc
       | a :: rest =>
           Ok (a, mkWorld (memoryPool w)
                          (mkSys (memory (sys w)) rest
                                 (trace (sys w) ++ [EvNew (MAX_SLOT_SIZE + 1) a])))
       end
  /\ useMemory spur 0 w = Ok (nullptr, w).
Proof.
  split; [reflexivity|]. split; [vm_compute; split; [reflexivity | discriminate]|].
  split; [reflexivity|]. split; [|reflexivity].
  unfold useMemory, global_new, sys_new.
  change (MAX_SLOT_SIZE + 1 <=? 0) with false.
  change (MAX_SLOT_SIZE + 1 >? MAX_SLOT_SIZE) with true. cbv beta iota.
  destruct (arena (sys w)); reflexivity.
Qed.

(** ** Configuring the table *)

Section Registry.

Lemma on_pool_static {A} (index : Z) (f : M Obj A) (w : World) :
  on_pool index f w = on_pool index f (mkWorld (Some (static_memoryPool w)) (sys w)).
Proof. reflexivity. Qed.

Lemma init_at (i : Z) (p : MemoryPool) (s : Sys) :
  0 <= i < MEMORY_POOL_NUM ->
  init (to_size_t (to_int ((i + 1) * SLOT_BASE_SIZE))) (mkObj p s) =
    Ok (tt, mkObj (mkPool (BlockSize_ p) ((i + 1) * SLOT_BASE_SIZE)
                          nullptr nullptr nullptr nullptr) s).
Proof.
  unfold MEMORY_POOL_NUM, SLOT_BASE_SIZE. intros Hi.
  rewrite (to_int_small ((i + 1) * 8)) by lia.
  rewrite to_size_t_small by lia.
  unfold init, update. destruct (Z.gtb_spec ((i + 1) * 8) 0); [|lia].
  cbn. rewrite to_int_small by lia. reflexivity.
Qed.

Lemma init_loop (n : nat) : forall (i : nat) (l : list MemoryPool) (s : Sys),
  length l = Z.to_nat MEMORY_POOL_NUM ->
  (i + n <= Z.to_nat MEMORY_POOL_NUM)%nat ->
  (forall (j : nat) (p : MemoryPool),
      (j < i)%nat -> l !! j = Some p ->
      SlotSize_ p = (Z.of_nat j + 1) * SLOT_BASE_SIZE) ->
  exists l',
    for_loop n (Z.of_nat i) init_body (mkWorld (Some l) s) = Ok (tt, mkWorld (Some l') s)
    /\ length l' = Z.to_nat MEMORY_POOL_NUM
    /\ forall (j : nat) (p : MemoryPool),
         (j < i + n)%nat -> l' !! j = Some p ->
         SlotSize_ p = (Z.of_nat j + 1) * SLOT_BASE_SIZE.
Proof.
  induction n as [|n IH]; intros i l s Hlen Hin Hdone.
  - exists l. split; [reflexivity|]. split; [exact Hlen|].
    intros j p Hj. apply Hdone. lia.
  - cbn [for_loop]. unfold bind at 1. unfold init_body at 1.
    destruct (on_pool_spec (Z.of_nat i)
                (init (to_size_t (to_int ((Z.of_nat i + 1) * SLOT_BASE_SIZE))))
                (mkWorld (Some l) s)) as (p & Hp & _ & Hrun).
    { exact Hlen. }
    { unfold MEMORY_POOL_NUM in *. lia. }
    rewrite Hrun. cbn [sys static_memoryPool memoryPool] in *.
    rewrite init_at by (unfold MEMORY_POOL_NUM in *; lia).
    cbn [this env]. rewrite Nat2Z.id in *.
    set (p' := mkPool (BlockSize_ p) ((Z.of_nat i + 1) * SLOT_BASE_SIZE)
                      nullptr nullptr nullptr nullptr).
    destruct (IH (S i) (<[i := p']> l) s) as (l' & Hloop & Hlen' & Hall).
    + rewrite length_insert. exact Hlen.
    + lia.
    + intros j q Hj Hq. destruct (Nat.eq_dec j i) as [->|Hne].
      * rewrite list_lookup_insert_eq in Hq by (apply lookup_lt_Some in Hp; exact Hp).
        injection Hq as <-. reflexivity.
      * rewrite list_lookup_insert_ne in Hq by auto. apply (Hdone j q); [lia | exact Hq].
    + exists l'. replace (Z.of_nat i + 1) with (Z.of_nat (S i)) by lia.
      split; [exact Hloop|]. split; [exact Hlen'|].
      intros j q Hj. apply Hall. lia.
Qed.

Lemma initMemoryPool_spec (w : World) :
  registry_ok w ->
  exists l,
    initMemoryPool w = Ok (tt, mkWorld (Some l) (sys w))
    /\ configured (mkWorld (Some l) (sys w)).
Proof.
  intros Hok.
  destruct (init_loop (Z.to_nat MEMORY_POOL_NUM) 0 (static_memoryPool w) (sys w))
    as (l & Hloop & Hlen & Hall).
  - now apply static_length.
  - lia.
  - intros j p Hj. lia.
  - exists l. split.
    + unfold initMemoryPool.
      change (Z.to_nat MEMORY_POOL_NUM) with (S 63) in *.
      cbn [for_loop] in *. unfold bind at 1. unfold bind at 1 in Hloop.
      unfold init_body at 1. unfold init_body at 1 in Hloop.
      rewrite on_pool_static. exact Hloop.
    + exists l. split; [reflexivity|]. split; [exact Hlen|].
      intros j p Hp. apply (Hall j p); [|exact Hp].
      apply lookup_lt_Some in Hp. lia.
Qed.

Lemma configured_ok (w : World) : configured w -> registry_ok w.
Proof. intros (l & Hl & Hlen & _). unfold registry_ok. now rewrite Hl. Qed.

End Registry.

(** C6, as stated, fails: before [initMemoryPool] is called, the first
    access constructs the array with the default constructor, so pool 0
    has slot size 0 and not 8, and the first request through the router
    divides by zero in [padPointer]. *)
Lemma lazy_configuration_counterexample :
  exists p w',
    getMemoryPool 0 (fresh_world [65536]) = Ok (p, w')
    /\ SlotSize_ p = 0
    /\ SlotSize_ p <> (0 + 1) * SLOT_BASE_SIZE
    /\ useMemory 0 8 (fresh_world [65536]) = Fault DivideByZero.
Proof.
  do 2 eexists. split; [vm_compute; reflexivity|].
  split; [reflexivity|]. split; [vm_compute; discriminate | vm_compute; reflexivity].
Qed.

(** C6, amended: the first call of [getMemoryPool] constructs the array
    with every slot size 0; after the caller has run [initMemoryPool],
    which always succeeds, [getMemoryPool i] returns for every [i] in
    0..63 a pool whose slot size is [(i + 1) * SLOT_BASE_SIZE], and leaves
    the table as it is. *)
Theorem configured_after_init (w : World) (i : Z) :
  registry_ok w ->
  0 <= i < MEMORY_POOL_NUM ->
  (memoryPool w = None ->
   exists w0, getMemoryPool i w = Ok (MemoryPool_ctor 4096, w0)
              /\ SlotSize_ (MemoryPool_ctor 4096) = 0)
  /\ exists w' p,
       initMemoryPool w = Ok (tt, w')
       /\ configured w'
       /\ sys w' = sys w
       /\ getMemoryPool i w' = Ok (p, w')
       /\ SlotSize_ p = (i + 1) * SLOT_BASE_SIZE.
Proof.
  intros Hok Hi. split.
  - intros Hnone. destruct (on_pool_spec i self w Hok Hi) as (p & Hp & Hget & _).
    rewrite Hget. eexists. split; [|reflexivity]. f_equal. f_equal.
    unfold static_memoryPool in Hp. rewrite Hnone in Hp.
    apply lookup_replicate in Hp as (-> & _). reflexivity.
  - destruct (initMemoryPool_spec w Hok) as (l & Hinit & Hconf).
    pose proof Hconf as (l0 & Hl0 & Hlen & Hall). cbn in Hl0. injection Hl0 as <-.
    destruct (on_pool_spec i self (mkWorld (Some l) (sys w)) (configured_ok _ Hconf) Hi)
      as (p & Hp & Hget & _).
    cbn [static_memoryPool memoryPool sys] in *.
    exists (mkWorld (Some l) (sys w)), p.
    split; [exact Hinit|]. split; [exact Hconf|]. split; [reflexivity|].
    split; [exact Hget|].
    rewrite (Hall _ _ Hp). rewrite Z2Nat.id by lia. reflexivity.
Qed.

Lemma configured_after_init_witness :
  (memoryPool (fresh_world [65536]) = None ->
   exists w0, getMemoryPool 5 (fresh_world [65536]) = Ok (MemoryPool_ctor 4096, w0)
              /\ SlotSize_ (MemoryPool_ctor 4096) = 0)
  /\ exists w' p,
       initMemoryPool (fresh_world [65536]) = Ok (tt, w')
       /\ configured w'
       /\ sys w' = sys (fresh_world [65536])
       /\ getMemoryPool 5 w' = Ok (p, w')
       /\ SlotSize_ p = (5 + 1) * SLOT_BASE_SIZE.
Proof.
  apply (configured_after_init (fresh_world [65536]) 5).
  - exact I.
  - unfold MEMORY_POOL_NUM. lia.
Defined.

(** ** Dispatch by size *)



(** ** Invalid arguments *)

(** C9, as stated, fails: [freeMemory] with size 0 and a non-null address
    (here the address a first request of 8 bytes returned) computes
    [(0 + 7) / 8 - 1], index -1, and reaches outside the array. *)
Lemma free_zero_size_counterexample :
  exists w,
    (initMemoryPool ;; useMemory 0 8) (fresh_world [65536]) = Ok (65544, w)
    /\ freeMemory_index 0 = -1
    /\ freeMemory 0 65544 0 w = Fault OutOfBounds
    /\ freeMemory 0 65544 0 w <> Ok (tt, w).
Proof.
  eexists. split; [vm_compute; reflexivity|].
  split; [reflexivity|]. split; [reflexivity | discriminate].
Qed.

(** C9, amended: a request of 0 bytes returns null, and [freeMemory] and
    [deallocate] of a null address (which is what the free matching a
    zero-size request passes) do nothing; each leaves the whole state as
    it was and none fails. *)
Theorem invalid_arguments_are_local (spur : nat) (w : World) (o : Obj) (size : Z) :
  useMemory spur 0 w = Ok (nullptr, w)
  /\ freeMemory spur nullptr size w = Ok (tt, w)
  /\ deallocate spur nullptr o = Ok (tt, o).
Proof. repeat split. Qed.

(** ** Typed helpers *)

Section Typed.

Lemma on_pool_run {A} (index : Z) (f : M Obj A) (w : World) (p : MemoryPool) :
  0 <= index < MEMORY_POOL_NUM ->
  static_memoryPool w !! Z.to_nat index = Some p ->
  on_pool index f w =
    match f (mkObj p (sys w)) with
    | Ok (a, o) =>
        Ok (a, mkWorld (Some (<[Z.to_nat index := this o]> (static_memoryPool w)))
                       (env o))
    | Fault e => Fault e
    end.
Proof.
  intros Hi Hp. unfold on_pool, bind, getMemoryPool.
  destruct (Z.ltb_spec index 0); [lia|].
  destruct (Z.leb_spec MEMORY_POOL_NUM index); [lia|].
  cbn. rewrite Hp. reflexivity.
Qed.

Lemma on_pool_inv {A} (index : Z) (f : M Obj A) (w w' : World) (a : A) :
  on_pool index f w = Ok (a, w') ->
  0 <= index < MEMORY_POOL_NUM /\
  exists p o,
    static_memoryPool w !! Z.to_nat index = Some p
    /\ f (mkObj p (sys w)) = Ok (a, o)
    /\ w' = mkWorld (Some (<[Z.to_nat index := this o]> (static_memoryPool w))) (env o).
Proof.
  intros H.
  destruct (Z.lt_ge_cases index 0) as [Hneg|Hpos];
    [rewrite on_pool_out_of_bounds in H by lia; discriminate|].
  destruct (Z.lt_ge_cases index MEMORY_POOL_NUM) as [Hlt|Hge];
    [|rewrite on_pool_out_of_bounds in H by lia; discriminate].
  split; [lia|].
  destruct (static_memoryPool w !! Z.to_nat index) as [p|] eqn:Hp.
  - rewrite (on_pool_run index f w p) in H by (auto; lia).
    destruct (f (mkObj p (sys w))) as [[a' o]|] eqn:Hf; [|discriminate].
    injection H as <- <-. exists p, o. auto.
  - unfold on_pool, bind, getMemoryPool in H.
    destruct (Z.ltb_spec index 0); [lia|].
    destruct (Z.leb_spec MEMORY_POOL_NUM index); [lia|].
    cbn in H. rewrite Hp in H. discriminate.
Qed.

Lemma constructions_app (t u : list event) :
  constructions (t ++ u) = (constructions t + constructions u)%nat.
Proof. unfold constructions. now rewrite List.filter_app, length_app. Qed.

Lemma destructions_app (t u : list event) :
  destructions (t ++ u) = (destructions t + destructions u)%nat.
Proof. unfold destructions. now rewrite List.filter_app, length_app. Qed.




End Typed.



(** ** The free stack as a stack *)

Section StackOrder.

Lemma set_freeList_twice (a b : Z) (p : MemoryPool) :
  set_freeList a (set_freeList b p) = set_freeList a p.
Proof. reflexivity. Qed.

Lemma set_freeList_same (p : MemoryPool) : set_freeList (freeList_ p) p = p.
Proof. destruct p. reflexivity. Qed.

Lemma chain_seg_app (m : Memory) (L1 L2 : list Z) : forall (head mid tl : Z),
  chain_seg m head L1 mid ->
  chain_seg m mid L2 tl ->
  chain_seg m head (L1 ++ L2) tl.
Proof.
  induction L1 as [|a L1 IH]; intros head mid tl H1 H2.
  - cbn in *. now subst.
  - cbn in *. destruct H1 as (-> & Ha & H1). splits; auto. eapply IH; eauto.
Qed.

(** Stores that stay clear of the words of the nodes keep a run. *)
Lemma chain_seg_frame (m m' : Memory) (L : list Z) : forall (head tl : Z),
  (forall a x, In a L -> a <= x < a + 8 -> m' x = m x) ->
  chain_seg m head L tl ->
  chain_seg m' head L tl.
Proof.
  induction L as [|a L IH]; intros head tl Hm H; [exact H|].
  cbn in *. destruct H as (-> & Ha & H). splits; auto.
  replace (next_load m' a) with (next_load m a).
  - apply IH; [|exact H]. intros b x Hb. apply Hm. now right.
  - unfold next_load. apply load_le_ext. intros x Hx. symmetry. apply (Hm a); [now left|].
    cbn in Hx. lia.
Qed.

(** Popping a run returns its nodes in order and leaves the head at its
    end. *)
Lemma allocate_times_seg (spur : nat) (s : Sys) (L : list Z) : forall (p : MemoryPool) (tl : Z),
  chain_seg (memory s) (freeList_ p) L tl ->
  allocate_times spur (length L) (mkObj p s) = Ok (L, mkObj (set_freeList tl p) s).
Proof.
  induction L as [|a L IH]; intros p tl H.
  - cbn in *. rewrite <- H, set_freeList_same. reflexivity.
  - cbn [chain_seg] in H. destruct H as (Hh & Ha & H).
    cbn [length allocate_times]. unfold bind.
    rewrite allocate_reuse by (rewrite Hh; exact Ha). rewrite Hh.
    rewrite (IH (set_freeList (next_load (memory s) a) p) tl) by exact H.
    rewrite set_freeList_twice. reflexivity.
Qed.

Lemma apart_in (B : Z) (l : list Z) : forall a b,
  apart B l -> In a l -> In b l -> a = b \/ a + B <= b \/ b + B <= a.
Proof.
  induction l as [|c l IH]; intros a b Hap Ha Hb; [contradiction|].
  cbn in Hap. destruct Hap as (Hc & Hl). rewrite Forall_forall in Hc.
  destruct Ha as [->|Ha], Hb as [->|Hb].
  - now left.
  - right. apply Hc. now apply list_elem_of_In.
  - right. destruct (Hc a) as [?|?]; [now apply list_elem_of_In | lia | lia].
  - now apply IH.
Qed.

Lemma apart_cross (B : Z) (l1 l2 : list Z) : forall a b,
  apart B (l1 ++ l2) -> In a l1 -> In b l2 -> a + B <= b \/ b + B <= a.
Proof.
  induction l1 as [|c l1 IH]; intros a b Hap Ha Hb; [contradiction|].
  cbn in Hap. destruct Hap as (Hc & Hl). rewrite Forall_forall in Hc.
  destruct Ha as [->|Ha].
  - apply Hc. apply list_elem_of_In. apply in_or_app. now right.
  - now apply IH.
Qed.

Lemma apart_tail (B : Z) (l1 l2 : list Z) : apart B (l1 ++ l2) -> apart B l2.
Proof. induction l1 as [|c l1 IH]; [auto|]. cbn. intros (_ & H). auto. Qed.

Lemma last_cons (l : list Z) : forall a d, List.last (a :: l) d = List.last l a.
Proof.
  induction l as [|z l IH]; intros a d; [reflexivity|].
  change (List.last (a :: z :: l) d) with (List.last (z :: l) d).
  now rewrite !IH.
Qed.

(** Pushing the addresses of a list builds the run of the reversed list
    on top of the old head and touches only their first words. *)
Lemma deallocate_each_seg (spur : nat) (l : list Z) : forall (p : MemoryPool) (s : Sys),
  Forall (fun a => a <> nullptr /\ 0 <= a < 2 ^ 64) l ->
  apart 8 l ->
  0 <= freeList_ p < 2 ^ 64 ->
  exists m',
    deallocate_each spur l (mkObj p s) =
      Ok (tt, mkObj (set_freeList (List.last l (freeList_ p)) p) (mkSys m' (arena s) (trace s)))
    /\ chain_seg m' (List.last l (freeList_ p)) (rev l) (freeList_ p)
    /\ forall x, (forall a, In a l -> x < a \/ a + 8 <= x) -> m' x = memory s x.
Proof.
  induction l as [|a l IH]; intros p s Hall Hap Hh.
  - exists (memory s). cbn. rewrite set_freeList_same. destruct s. auto.
  - apply Forall_cons in Hall as ((Ha & Hr) & Hall). cbn in Hap. destruct Hap as (Hsep & Hap).
    destruct (deallocate_spec spur a p s Ha) as (m1 & Hd & Hm1).
    destruct (IH (set_freeList a p) (mkSys m1 (arena s) (trace s)) Hall Hap) as (m' & Hrun & Hseg & Hfr).
    { cbn. exact Hr. }
    cbn [freeList_ set_freeList memory arena trace] in *.
    exists m'. split; [|split].
    + cbn [deallocate_each]. unfold bind. rewrite Hd, Hrun.
      rewrite set_freeList_twice, last_cons. reflexivity.
    + rewrite last_cons.
      cbn [rev]. apply (chain_seg_app m' (rev l) [a] _ a); [exact Hseg|].
      cbn. splits; auto.
      rewrite <- (next_load_store (memory s) m1 a (freeList_ p) Hm1 Hh).
      unfold next_load. apply load_le_ext. intros x Hx. cbn in Hx.
      apply Hfr. rewrite Forall_forall in Hsep.
      intros b Hb. destruct (Hsep b) as [?|?]; [now apply list_elem_of_In | lia | lia].
    + intros x Hx. rewrite Hfr by (intros b Hb; apply Hx; now right).
      rewrite Hm1. unfold next_store. apply store_le_outside.
      destruct (Hx a) as [?|?]; [now left | lia | cbn; lia].
Qed.

End StackOrder.

(** X1 (the free stack is a stack): after [deallocate] of distinct slots
    [a1 .. an], the next [n] calls of [allocate] return [an .. a1], and
    the pool (cursor, boundary, chunk list and the head of the free stack)
    is then exactly as before; no lock is taken and the system allocator
    is not called. *)
Theorem free_stack_order (spur spur' : nat) (l : list Z) (p : MemoryPool) (s : Sys) :
  Forall (fun a => a <> nullptr /\ 0 <= a < 2 ^ 64) l ->
  apart 8 l ->
  0 <= freeList_ p < 2 ^ 64 ->
  exists s',
    (deallocate_each spur l ;; allocate_times spur' (length l)) (mkObj p s)
      = Ok (rev l, mkObj p s')
    /\ arena s' = arena s
    /\ trace s' = trace s
    /\ forall x, (forall a, In a l -> x < a \/ a + 8 <= x) -> memory s' x = memory s x.
Proof.
  intros Hall Hap Hh.
  destruct (deallocate_each_seg spur l p s Hall Hap Hh) as (m' & Hrun & Hseg & Hfr).
  eexists. split; [|split; [|split]].
  - unfold bind. rewrite Hrun. rewrite <- length_rev.
    rewrite (allocate_times_seg spur' _ (rev l) _ (freeList_ p)) by exact Hseg.
    rewrite set_freeList_twice, set_freeList_same. reflexivity.
  - reflexivity.
  - reflexivity.
  - exact Hfr.
Qed.

Lemma free_stack_order_witness :
  exists s',
    (deallocate_each 1 [65544; 65560; 65552] ;; allocate_times 0 3)
      (mkObj (mkPool 4096 8 65536 65568 69625 0) (fresh_sys []))
      = Ok ([65552; 65560; 65544], mkObj (mkPool 4096 8 65536 65568 69625 0) s')
    /\ arena s' = []
    /\ trace s' = []
    /\ forall x, (forall a, In a [65544; 65560; 65552] -> x < a \/ a + 8 <= x) ->
                 memory s' x = zero_memory x.
Proof.
  apply (free_stack_order 1 0 [65544; 65560; 65552]
           (mkPool 4096 8 65536 65568 69625 0) (fresh_sys [])).
  - repeat constructor; try discriminate.
  - cbn. repeat constructor; lia.
  - cbn. lia.
Defined.

(** ** What a pool owns *)

Lemma news_app (t u : list event) : news (t ++ u) = news t ++ news u.
Proof. unfold news. apply flat_map_app. Qed.

Lemma deletes_app (t u : list event) : deletes (t ++ u) = deletes t ++ deletes u.
Proof. unfold deletes. apply flat_map_app. Qed.

Lemma mod_sub_self (a size : Z) :
  size <> 0 -> (a + size) mod size = 0 -> a mod size = 0.
Proof.
  intros Hs H. replace (a + size) with (a + 1 * size) in H by lia.
  now rewrite Z.mod_add in H by exact Hs.
Qed.

(** Two different multiples of the slot size are a slot apart. *)
Lemma multiples_apart (a b size : Z) :
  0 < size -> a mod size = 0 -> b mod size = 0 ->
  a = b \/ a + size <= b \/ b + size <= a.
Proof.
  intros Hs Ha Hb.
  pose proof (Z.div_mod a size) as Da. pose proof (Z.div_mod b size) as Db.
  destruct (Z.eq_dec (a / size) (b / size)) as [E|N]; [left; rewrite E in Da; lia|].
  right. nia.
Qed.

Section Ownership.

Variables BlockSize size : Z.
Variables arena0 news0 : list Z.
Hypothesis size_pos : 0 < size.
Hypothesis size_slots : size mod sizeof_Slot = 0.
Hypothesis size_fits : 2 * size + 7 <= BlockSize.
Hypothesis block_int : BlockSize < 2 ^ 31.
Hypothesis arena_sane : Forall (fun blk => 0 < blk /\ blk + BlockSize < 2 ^ 64) arena0.










End Ownership.




(** The destructor's loop over a well-formed chunk list: it passes every
    chunk to [operator delete], newest first, and stops. *)
Lemma release_blocks_list (p : MemoryPool) (cs : list Z) :
  forall (fuel : nat) (head : Z) (s : Sys),
  chunk_list (memory s) head cs ->
  (length cs <= fuel)%nat ->
  release_blocks fuel head (mkObj p s) =
    Ok (tt, mkObj p (mkSys (memory s) (arena s) (trace s ++ map EvDelete cs))).
Proof.
  induction cs as [|c cs IH]; intros fuel head s Hcl Hfuel.
  - unfold chunk_list in Hcl. cbn in Hcl. subst head.
    destruct s. cbn. rewrite app_nil_r. destruct fuel; reflexivity.
  - unfold chunk_list in Hcl. cbn in Hcl. destruct Hcl as (-> & Hc & Hcl).
    destruct fuel as [|k]; [cbn in Hfuel; lia|].
    cbn [release_blocks]. destruct (Z.eqb_spec c nullptr) as [E|_]; [contradiction|].
    unfold bind, read_next, operator_delete, sys_delete. cbn [env this memory arena trace].
    rewrite (IH k); cbn [memory arena trace]; [| exact Hcl | cbn in Hfuel; lia].
    cbn [map]. now rewrite <- app_assoc.
Qed.





(** ** How many slots a chunk serves *)

Lemma set_curSlot_twice (a b : Z) (p : MemoryPool) :
  set_curSlot a (set_curSlot b p) = set_curSlot a p.
Proof. reflexivity. Qed.

(** Allocations from the cursor while whole slots fit before the chunk's
    end: consecutive slots, no lock-free traffic and no call of the
    system allocator. *)
Lemma client_bumps (size BlockSize : Z) (spurs : list nat) :
  forall (p : MemoryPool) (s : Sys) (given : list Z),
  0 < size < 2 ^ 31 -> size mod sizeof_Slot = 0 ->
  SlotSize_ p = size ->
  freeList_ p = nullptr ->
  0 <= curSlot_ p ->
  firstBlock_ p + BlockSize < 2 ^ 64 ->
  lastSlot_ p = firstBlock_ p + BlockSize - size + 1 ->
  curSlot_ p + Z.of_nat (length spurs) * size <= firstBlock_ p + BlockSize ->
  exists s',
    client (map Allocate spurs) given (mkObj p s) =
      Ok (rev (slots_from (curSlot_ p) size (length spurs)) ++ given,
          mkObj (set_curSlot (curSlot_ p + Z.of_nat (length spurs) * size) p) s')
    /\ arena s' = arena s /\ memory s' = memory s /\ news (trace s') = news (trace s).
Proof.
  induction spurs as [|sp spurs IH]; intros p s given Hs Hm HS Hf Hc Hend Hl Hfit.
  - exists s. cbn. rewrite Z.add_0_r. destruct p; cbn; auto.
  - cbn [length map client] in *. unfold bind.
    rewrite allocate_bump by (try assumption; nia).
    assert (Hb : bump p (curSlot_ p) = curSlot_ p + size).
    { rewrite <- HS. apply bump_exact; rewrite ?HS; try assumption; try lia; nia. }
    rewrite Hb. cbv beta iota.
    destruct (IH (set_curSlot (curSlot_ p + size) p)
                 (mkSys (memory s) (arena s) (trace s ++ [EvLock] ++ [EvUnlock]))
                 (curSlot_ p :: given)) as (s' & Hrun & Ha & Hmem & Hn); cbn; try assumption; try lia.
    exists s'. cbn [curSlot_ set_curSlot arena memory trace] in *.
    split; [|split; [exact Ha | split; [exact Hmem|]]].
    + etransitivity; [exact Hrun|]. rewrite set_curSlot_twice. f_equal. f_equal.
      * cbn [slots_from rev]. now rewrite <- app_assoc.
      * f_equal. f_equal. lia.
    + rewrite Hn, !news_app. cbn. now rewrite !app_nil_r.
Qed.

(** What [allocateNewBlock] computes for a chunk inside the address
    space. *)
Lemma grow_values (p : MemoryPool) (BlockSize size blk : Z) :
  0 < size -> 2 * size + 7 <= BlockSize -> BlockSize < 2 ^ 31 ->
  SlotSize_ p = size -> BlockSize_ p = BlockSize ->
  0 < blk -> blk + BlockSize < 2 ^ 64 ->
  let rem := (blk + 8) mod size in
  let pad := if rem =? 0 then 0 else size - rem in
  first_slot p blk = blk + 8 + pad
  /\ boundary p blk = blk + BlockSize - size + 1
  /\ 0 <= pad < size.
Proof.
  intros H1 H3 H4 HS HB Hblk Hend rem pad.
  destruct (pad_aligned (blk + 8) size H1) as (Hpad & _). cbv zeta in Hpad.
  fold rem in Hpad. fold pad in Hpad.
  unfold first_slot, boundary. rewrite HS, HB.
  rewrite (to_size_t_small size), (to_size_t_small BlockSize) by lia.
  unfold ptr_add, sizeof_Slot_ptr.
  rewrite (wrap64_small (blk + 8)) by lia. fold rem. fold pad.
  rewrite (wrap64_small (blk + 8 + pad)) by lia.
  rewrite (wrap64_small (blk + BlockSize - size + 1)) by lia. auto.
Qed.

(** X4 (the capacity of a chunk): a fresh pool whose slot size is a
    multiple of 8 with [2 * size + 7 <= BlockSize] takes one chunk [blk] on
    its first allocation and serves consecutive slots from
    [blk + 8 + pad] on, as many as fit whole before the chunk's end: the
    slot that ends exactly at the chunk's end is still handed out, and
    only the allocation that no longer fits takes the next chunk. *)
Theorem chunk_capacity (BlockSize size blk : Z) (rest : list Z)
        (spurs : list nat) (spur : nat) (s : Sys) :
  0 < size ->
  size mod sizeof_Slot = 0 ->
  2 * size + 7 <= BlockSize ->
  BlockSize < 2 ^ 31 ->
  arena s = blk :: rest ->
  0 < blk -> blk + BlockSize < 2 ^ 64 ->
  let rem := (blk + 8) mod size in
  let first := blk + 8 + (if rem =? 0 then 0 else size - rem) in
  let n := length spurs in
  (1 <= n)%nat ->
  first + Z.of_nat n * size <= blk + BlockSize ->
  exists o,
    session BlockSize size (map Allocate spurs) s = Ok (rev (slots_from first size n), o)
    /\ arena (env o) = rest
    /\ news (trace (env o)) = news (trace s) ++ [blk]
    /\ (first + (Z.of_nat n + 1) * size <= blk + BlockSize ->
        exists o2, allocate spur o = Ok (first + Z.of_nat n * size, o2)
                   /\ arena (env o2) = rest)
    /\ (blk + BlockSize < first + (Z.of_nat n + 1) * size ->
        forall blk2 rest2, rest = blk2 :: rest2 ->
        exists o2, allocate spur o = Ok (first_slot (this o) blk2, o2)
                   /\ arena (env o2) = rest2).
Proof.
  intros H1 H2 H3 H4 Harena Hblk Hend rem first n Hn Hfit.
  destruct spurs as [|sp spurs]; [cbn in Hn; lia|].
  unfold session, bind. rewrite pool_after_init by lia.
  set (p0 := mkPool BlockSize size nullptr nullptr nullptr nullptr).
  destruct (grow_values p0 BlockSize size blk H1 H3 H4 eq_refl eq_refl Hblk Hend)
    as (Hfs & Hbd & Hpad).
  cbv zeta in Hfs, Hpad. fold rem in Hfs, Hpad. fold first in Hfs.
  assert (Hfirst : blk + 8 <= first < blk + 8 + size) by (subst first; lia).
  clearbody first. clear Hpad. clearbody rem.
  cbn [map client]. unfold bind.
  rewrite (allocate_grow sp p0 s blk rest); [| reflexivity | cbn; lia | exact Harena |].
  2:{ cbn. rewrite to_size_t_small by lia. lia. }
  fold (first_slot p0 blk). fold (boundary p0 blk). rewrite Hfs, Hbd.
  assert (Hb : bump p0 first = first + size).
  { apply (bump_exact p0); cbn; try assumption; lia. }
  rewrite Hb. cbn [BlockSize_ SlotSize_ firstBlock_ p0].
  subst n. cbn [length] in *.
  destruct (client_bumps size BlockSize spurs
              (mkPool BlockSize size blk (first + size) (blk + BlockSize - size + 1) nullptr)
              (mkSys (next_store (memory s) blk nullptr) rest
                     (trace s ++ [EvLock] ++ [EvNew (to_size_t BlockSize) blk] ++ [EvUnlock]))
              [first]
              ltac:(lia) H2 eq_refl eq_refl ltac:(cbn; lia) ltac:(cbn; lia) eq_refl
              ltac:(cbn; lia))
    as (s' & Hrun & Ha & Hmem & Hnews).
  cbn [curSlot_] in Hrun. cbn [arena memory trace] in Ha, Hmem, Hnews. rewrite Hrun.
  eexists. split.
  { reflexivity. }
  split; [exact Ha | split].
  - cbn [env]. rewrite Hnews. cbn [trace]. rewrite !news_app. reflexivity.
  - cbn [this env]. split.
    + intros Hmore.
      replace (first + Z.of_nat (S (length spurs)) * size)
        with (first + size + Z.of_nat (length spurs) * size) by lia.
      rewrite allocate_bump; [| reflexivity | cbn; lia].
      eexists. split; [reflexivity | exact Ha].
    + intros Hfull blk2 rest2 Hrest.
      rewrite (allocate_grow spur _ s' blk2 rest2);
        [| reflexivity | cbn; lia | congruence | cbn; rewrite to_size_t_small by lia; lia].
      eexists. split; reflexivity.
Qed.

Lemma chunk_capacity_witness :
  exists o,
    session 4096 512 (map Allocate [0; 1; 0; 2; 0; 0; 3]%nat) (fresh_sys [65536; 131072])
      = Ok (rev (slots_from 66048 512 7), o)
    /\ arena (env o) = [131072]
    /\ news (trace (env o)) = news (trace (fresh_sys [65536; 131072])) ++ [65536]
    /\ (66048 + (7 + 1) * 512 <= 65536 + 4096 ->
        exists o2, allocate 5 o = Ok (66048 + 7 * 512, o2) /\ arena (env o2) = [131072])
    /\ (65536 + 4096 < 66048 + (7 + 1) * 512 ->
        forall blk2 rest2, [131072] = blk2 :: rest2 ->
        exists o2, allocate 5 o = Ok (first_slot (this o) blk2, o2)
                   /\ arena (env o2) = rest2).
Proof.
  apply (chunk_capacity 4096 512 65536 [131072] [0; 1; 0; 2; 0; 0; 3]%nat 5
           (fresh_sys [65536; 131072])); try reflexivity; cbn; lia.
Defined.

(** ** More on the router *)

Lemma useMemory_cases (spur : nat) (size : Z) (w w' : World) (a : Z) :
  useMemory spur size w = Ok (a, w') ->
  (size <= 0 /\ a = nullptr /\ w' = w)
  \/ (MAX_SLOT_SIZE < size /\ memoryPool w' = memoryPool w
      /\ sys_new size (sys w) = Ok (a, sys w'))
  \/ (1 <= size <= MAX_SLOT_SIZE /\
      exists p o,
        static_memoryPool w !! Z.to_nat (useMemory_index size) = Some p
        /\ allocate spur (mkObj p (sys w)) = Ok (a, o)
        /\ w' = mkWorld (Some (<[Z.to_nat (useMemory_index size) := this o]>
                                 (static_memoryPool w))) (env o)).
Proof.
  unfold useMemory. destruct (Z.leb_spec size 0) as [H0|H0].
  - intros H. injection H as <- <-. left. auto.
  - destruct (Z.gtb_spec size MAX_SLOT_SIZE) as [Hbig|Hsmall].
    + intros H. right. left. split; [exact Hbig|].
      unfold global_new in H. destruct (sys_new size (sys w)) as [[a' s']|]; [|discriminate].
      injection H as <- <-. auto.
    + intros H. right. right. split; [lia|].
      apply on_pool_inv in H as (_ & p & o & Hp & Ha & ->). eauto.
Qed.

Lemma freeMemory_cases (spur : nat) (ptr size : Z) (w w' : World) :
  freeMemory spur ptr size w = Ok (tt, w') ->
  (ptr = nullptr /\ w' = w)
  \/ (ptr <> nullptr /\ MAX_SLOT_SIZE < size /\ memoryPool w' = memoryPool w
      /\ sys_delete ptr (sys w) = Ok (tt, sys w'))
  \/ (ptr <> nullptr /\ size <= MAX_SLOT_SIZE /\
      exists p o,
        static_memoryPool w !! Z.to_nat (freeMemory_index size) = Some p
        /\ deallocate spur ptr (mkObj p (sys w)) = Ok (tt, o)
        /\ w' = mkWorld (Some (<[Z.to_nat (freeMemory_index size) := this o]>
                                 (static_memoryPool w))) (env o)).
Proof.
  unfold freeMemory. destruct (Z.eqb_spec ptr nullptr) as [->|Hp].
  - intros H. injection H as <-. left. auto.
  - destruct (Z.gtb_spec size MAX_SLOT_SIZE) as [Hbig|Hsmall].
    + intros H. right. left. injection H as <-. auto.
    + intros H. right. right. split; [exact Hp|]. split; [lia|].
      apply on_pool_inv in H as (_ & p & o & Hq & Ha & ->). eauto.
Qed.

(** X5 (one request, one pool): a request or a free that succeeds leaves
    every pool but the one its size selects as it was, and one above
    [MAX_SLOT_SIZE] leaves the whole table as it was, not even
    constructing it. *)
Theorem request_touches_one_pool (spur : nat) (size ptr : Z) (w w' : World) :
  (forall a, useMemory spur size w = Ok (a, w') ->
     (forall j : nat, j <> Z.to_nat (useMemory_index size) ->
        static_memoryPool w' !! j = static_memoryPool w !! j)
     /\ (MAX_SLOT_SIZE < size -> memoryPool w' = memoryPool w))
  /\ (freeMemory spur ptr size w = Ok (tt, w') ->
     (forall j : nat, j <> Z.to_nat (freeMemory_index size) ->
        static_memoryPool w' !! j = static_memoryPool w !! j)
     /\ (MAX_SLOT_SIZE < size -> memoryPool w' = memoryPool w)).
Proof.
  split.
  - intros a H. apply useMemory_cases in H.
    destruct H as [(H0 & _ & ->) | [(Hbig & Hreg & _) | (Hr & p & o & Hp & Ha & ->)]].
    + split; [reflexivity | unfold MAX_SLOT_SIZE; lia].
    + split; [|auto]. intros j _. unfold static_memoryPool. now rewrite Hreg.
    + split; [|lia]. intros j Hj. cbn. now apply list_lookup_insert_ne.
  - intros H. apply freeMemory_cases in H.
    destruct H as [(_ & ->) | [(_ & Hbig & Hreg & _) | (_ & Hr & p & o & Hp & Ha & ->)]].
    + split; reflexivity.
    + split; [|auto]. intros j _. unfold static_memoryPool. now rewrite Hreg.
    + split; [|lia]. intros j Hj. cbn. now apply list_lookup_insert_ne.
Qed.

Lemma request_touches_one_pool_witness :
  exists a w',
    useMemory 0 20 (configured_world [65536]) = Ok (a, w')
    /\ (forall j : nat, j <> Z.to_nat (useMemory_index 20) ->
          static_memoryPool w' !! j = static_memoryPool (configured_world [65536]) !! j)
    /\ (MAX_SLOT_SIZE < 20 -> memoryPool w' = memoryPool (configured_world [65536])).
Proof.
  assert (H : exists a w', useMemory 0 20 (configured_world [65536]) = Ok (a, w'))
    by (do 2 eexists; vm_compute; reflexivity).
  destruct H as (a & w' & H). exists a, w'. split; [exact H|].
  exact (proj1 (request_touches_one_pool 0 20 0 (configured_world [65536]) w') a H).
Defined.

Lemma useMemory_registry_ok (spur : nat) (size : Z) (w w' : World) (a : Z) :
  registry_ok w -> useMemory spur size w = Ok (a, w') -> registry_ok w'.
Proof.
  intros Hok H. apply useMemory_cases in H.
  destruct H as [(H0 & _ & ->) | [(Hbig & Hreg & _) | (Hr & p & o & Hp & Ha & ->)]].
  - exact Hok.
  - unfold registry_ok in *. now rewrite Hreg.
  - unfold registry_ok. cbn. rewrite length_insert. now apply static_length.
Qed.

(** X6 (the size given to [freeMemory] decides the pool): a slot obtained
    for [size1] bytes and freed with [size2] goes on the free stack of
    the pool of [size2], whose next request returns it, whatever the
    slot's own size is; the router keeps no record of it. *)
Theorem free_size_decides_pool (spur spur' spur'' : nat) (size1 size2 : Z)
        (w w0 : World) (p : Z) :
  registry_ok w ->
  1 <= size1 <= MAX_SLOT_SIZE ->
  1 <= size2 <= MAX_SLOT_SIZE ->
  p <> nullptr ->
  useMemory spur size1 w = Ok (p, w0) ->
  exists w2 w3 q,
    freeMemory spur' p size2 w0 = Ok (tt, w2)
    /\ static_memoryPool w2 !! Z.to_nat (useMemory_index size2) = Some q
    /\ freeList_ q = p
    /\ useMemory spur'' size2 w2 = Ok (p, w3).
Proof.
  intros Hok H1 H2 Hp Huse.
  pose proof (useMemory_registry_ok spur size1 w w0 p Hok Huse) as Hok0.
  destruct (useMemory_index_spec size2 H2) as (_ & Hrange & _).
  unfold freeMemory, useMemory, MAX_SLOT_SIZE in *.
  destruct (Z.eqb_spec p nullptr); [contradiction|].
  destruct (Z.leb_spec size2 0); [lia|]. destruct (Z.gtb_spec size2 512); [lia|].
  rewrite (freeMemory_index_spec size2) by (unfold MAX_SLOT_SIZE; lia).
  set (i := useMemory_index size2) in *.
  destruct (on_pool_spec i (deallocate spur' p) w0 Hok0 Hrange) as (q & Hq & _ & Hrun).
  destruct (deallocate_spec spur' p q (sys w0) Hp) as (m' & Hd & _).
  rewrite Hrun, Hd. cbn [this env].
  assert (Hlt : (Z.to_nat i < length (static_memoryPool w0))%nat)
    by (apply lookup_lt_Some in Hq; exact Hq).
  eexists. eexists. exists (set_freeList p q).
  split; [reflexivity|]. split; [cbn; now apply list_lookup_insert_eq|].
  split; [reflexivity|].
  rewrite (on_pool_run i _ _ (set_freeList p q)); [|exact Hrange|].
  2:{ cbn. now apply list_lookup_insert_eq. }
  cbn [sys]. rewrite allocate_reuse by exact Hp. reflexivity.
Qed.

Lemma free_size_decides_pool_witness :
  exists w0 w2 w3 q,
    useMemory 0 8 (configured_world [65536]) = Ok (65544, w0)
    /\ freeMemory 1 65544 512 w0 = Ok (tt, w2)
    /\ static_memoryPool w2 !! Z.to_nat (useMemory_index 512) = Some q
    /\ freeList_ q = 65544
    /\ useMemory 2 512 w2 = Ok (65544, w3).
Proof.
  assert (H : exists w0, useMemory 0 8 (configured_world [65536]) = Ok (65544, w0))
    by (eexists; vm_compute; reflexivity).
  destruct H as (w0 & H).
  destruct (free_size_decides_pool 0 1 2 8 512 (configured_world [65536]) w0 65544)
    as (w2 & w3 & q & H2); [reflexivity | unfold MAX_SLOT_SIZE; lia
                            | unfold MAX_SLOT_SIZE; lia | discriminate | exact H |].
  exists w0, w2, w3, q. split; [exact H | exact H2].
Defined.

(** X7 (use before [initMemoryPool]): on a table that was never
    initialized, every request of 1 to [MAX_SLOT_SIZE] bytes fails: the
    default-constructed pool has slot size 0, and [padPointer] divides by
    it as soon as the system has returned a chunk. *)
Theorem use_before_init_fails (spur : nat) (size : Z) (s : Sys) :
  1 <= size <= MAX_SLOT_SIZE ->
  useMemory spur size (mkWorld None s) =
    Fault (match arena s with [] => BadAlloc | _ :: _ => DivideByZero end).
Proof.
  intros Hs. destruct (useMemory_index_spec size Hs) as (_ & Hrange & _).
  unfold useMemory, MAX_SLOT_SIZE in *.
  destruct (Z.leb_spec size 0); [lia|]. destruct (Z.gtb_spec size 512); [lia|].
  rewrite (on_pool_run _ _ _ (MemoryPool_ctor 4096)); [|exact Hrange|].
  2:{ cbn. apply lookup_replicate. split; [reflexivity|]. unfold MEMORY_POOL_NUM in *. lia. }
  cbn [sys]. unfold allocate, bind. rewrite popFreeList_spec. cbn.
  unfold allocateNewBlock, bind, self, operator_new, sys_new, padPointer. cbn.
  destruct (arena s); reflexivity.
Qed.

Lemma use_before_init_fails_witness :
  useMemory 2 100 (mkWorld None (fresh_sys [65536])) = Fault DivideByZero.
Proof.
  apply (use_before_init_fails 2 100 (fresh_sys [65536])). unfold MAX_SLOT_SIZE. lia.
Defined.

(** What [init] makes of pool [j] of the table. *)
Lemma init_loop_exact (n : nat) : forall (i : nat) (l : list MemoryPool) (s : Sys),
  length l = Z.to_nat MEMORY_POOL_NUM ->
  (i + n <= Z.to_nat MEMORY_POOL_NUM)%nat ->
  exists l',
    for_loop n (Z.of_nat i) init_body (mkWorld (Some l) s) = Ok (tt, mkWorld (Some l') s)
    /\ length l' = Z.to_nat MEMORY_POOL_NUM
    /\ forall (j : nat) (q : MemoryPool),
         l !! j = Some q ->
         ((i <= j < i + n)%nat ->
          l' !! j = Some (mkPool (BlockSize_ q) ((Z.of_nat j + 1) * SLOT_BASE_SIZE)
                                 nullptr nullptr nullptr nullptr))
         /\ (~ (i <= j < i + n)%nat -> l' !! j = Some q).
Proof.
  induction n as [|n IH]; intros i l s Hlen Hin.
  - exists l. split; [reflexivity|]. split; [exact Hlen|].
    intros j q Hq. split; [lia | auto].
  - cbn [for_loop]. unfold bind at 1. unfold init_body at 1.
    destruct (on_pool_spec (Z.of_nat i)
                (init (to_size_t (to_int ((Z.of_nat i + 1) * SLOT_BASE_SIZE))))
                (mkWorld (Some l) s)) as (p & Hp & _ & Hrun).
    { exact Hlen. }
    { unfold MEMORY_POOL_NUM in *. lia. }
    rewrite Hrun. cbn [sys static_memoryPool memoryPool] in *.
    rewrite init_at by (unfold MEMORY_POOL_NUM in *; lia).
    cbn [this env]. rewrite Nat2Z.id in *.
    set (p' := mkPool (BlockSize_ p) ((Z.of_nat i + 1) * SLOT_BASE_SIZE)
                      nullptr nullptr nullptr nullptr).
    destruct (IH (S i) (<[i := p']> l) s) as (l' & Hloop & Hlen' & Hall).
    + rewrite length_insert. exact Hlen.
    + lia.
    + exists l'. replace (Z.of_nat i + 1) with (Z.of_nat (S i)) by lia.
      split; [exact Hloop|]. split; [exact Hlen'|].
      intros j q Hq. destruct (Nat.eq_dec j i) as [->|Hne].
      * assert (q = p) by congruence. subst q.
        destruct (Hall i p') as (_ & Hout).
        { apply list_lookup_insert_eq. apply lookup_lt_Some in Hp. exact Hp. }
        split; [intros _; apply Hout; lia | lia].
      * destruct (Hall j q) as (Hin' & Hout).
        { rewrite list_lookup_insert_ne by auto. exact Hq. }
        split; [intros Hj; apply Hin'; lia | intros Hj; apply Hout; lia].
Qed.

(** X8 ([initMemoryPool] starts every pool afresh): it always succeeds,
    does not call the system allocator (the chunks of a table that was in
    use are not released), and leaves pool [j] with slot size
    [(j + 1) * 8] and no chunk, cursor, boundary or free slot; so running
    it twice is the same as running it once. *)
Theorem initMemoryPool_resets (w : World) :
  registry_ok w ->
  exists l,
    initMemoryPool w = Ok (tt, mkWorld (Some l) (sys w))
    /\ length l = Z.to_nat MEMORY_POOL_NUM
    /\ (forall (j : nat) (q : MemoryPool),
          static_memoryPool w !! j = Some q ->
          l !! j = Some (mkPool (BlockSize_ q) ((Z.of_nat j + 1) * SLOT_BASE_SIZE)
                                nullptr nullptr nullptr nullptr))
    /\ (initMemoryPool ;; initMemoryPool) w = initMemoryPool w.
Proof.
  intros Hok.
  assert (Hrun : forall w0, registry_ok w0 ->
            exists l, initMemoryPool w0 = Ok (tt, mkWorld (Some l) (sys w0))
              /\ length l = Z.to_nat MEMORY_POOL_NUM
              /\ forall (j : nat) (q : MemoryPool),
                   static_memoryPool w0 !! j = Some q ->
                   l !! j = Some (mkPool (BlockSize_ q) ((Z.of_nat j + 1) * SLOT_BASE_SIZE)
                                         nullptr nullptr nullptr nullptr)).
  { intros w0 Hok0.
    destruct (init_loop_exact (Z.to_nat MEMORY_POOL_NUM) 0 (static_memoryPool w0) (sys w0))
      as (l & Hloop & Hlen & Hall); [now apply static_length | lia |].
    exists l. split; [|split; [exact Hlen|]].
    - unfold initMemoryPool.
      change (Z.to_nat MEMORY_POOL_NUM) with (S 63) in *.
      cbn [for_loop] in *. unfold bind at 1. unfold bind at 1 in Hloop.
      unfold init_body at 1. unfold init_body at 1 in Hloop.
      rewrite on_pool_static. exact Hloop.
    - intros j q Hq. apply (Hall j q Hq). apply lookup_lt_Some in Hq.
      rewrite static_length in Hq by exact Hok0. lia. }
  destruct (Hrun w Hok) as (l & Hinit & Hlen & Hall).
  exists l. split; [exact Hinit|]. split; [exact Hlen|]. split; [exact Hall|].
  unfold bind. rewrite Hinit.
  destruct (Hrun (mkWorld (Some l) (sys w)) Hlen) as (l2 & Hinit2 & Hlen2 & Hall2).
  rewrite Hinit2. cbn [sys]. f_equal. f_equal. f_equal. f_equal.
  apply list_eq. intros j.
  destruct (static_memoryPool w !! j) as [q|] eqn:Hq.
  - rewrite (Hall j q Hq). apply (Hall2 j _ (Hall j q Hq)).
  - apply lookup_ge_None in Hq. rewrite static_length in Hq by exact Hok.
    rewrite (proj2 (lookup_ge_None l2 j)) by lia.
    rewrite (proj2 (lookup_ge_None l j)) by lia. reflexivity.
Qed.

Lemma initMemoryPool_resets_witness :
  exists l,
    initMemoryPool (fresh_world [65536]) = Ok (tt, mkWorld (Some l) (sys (fresh_world [65536])))
    /\ length l = Z.to_nat MEMORY_POOL_NUM
    /\ (forall (j : nat) (q : MemoryPool),
          static_memoryPool (fresh_world [65536]) !! j = Some q ->
          l !! j = Some (mkPool (BlockSize_ q) ((Z.of_nat j + 1) * SLOT_BASE_SIZE)
                                nullptr nullptr nullptr nullptr))
    /\ (initMemoryPool ;; initMemoryPool) (fresh_world [65536])
       = initMemoryPool (fresh_world [65536]).
Proof. apply (initMemoryPool_resets (fresh_world [65536])). exact I. Defined.

(** X9 (create and destroy in the steady state): when the pool for
    [sizeof(T)] has a free slot [a], [newElement<T>] followed by
    [deleteElement<T>] constructs and destroys one object at [a] and
    leaves the table exactly as it was, the link of [a] included; it
    takes no lock and does not call the system allocator. *)
Theorem steady_round_trip (T : CxxClass) (spur spur' : nat) (w : World)
        (l : list MemoryPool) (q : MemoryPool) :
  1 <= sizeof T <= MAX_SLOT_SIZE ->
  memoryPool w = Some l ->
  l !! Z.to_nat (useMemory_index (sizeof T)) = Some q ->
  freeList_ q <> nullptr ->
  exists w',
    (p <- newElement T spur ;; deleteElement T spur' p) w = Ok (tt, w')
    /\ memoryPool w' = Some l
    /\ arena (sys w') = arena (sys w)
    /\ trace (sys w') = trace (sys w) ++ [EvConstruct (freeList_ q); EvDestruct (freeList_ q)]
    /\ next_load (memory (sys w')) (freeList_ q) = next_load (memory (sys w)) (freeList_ q).
Proof.
  intros Hs Hl Hq Hfree.
  destruct (useMemory_index_spec (sizeof T) Hs) as (_ & Hrange & _).
  set (i := useMemory_index (sizeof T)) in *. set (a := freeList_ q) in *.
  assert (Hstatic : static_memoryPool w = l) by (unfold static_memoryPool; now rewrite Hl).
  assert (Hlt : (Z.to_nat i < length l)%nat) by (apply lookup_lt_Some in Hq; exact Hq).
  unfold bind, newElement, bind, useMemory, MAX_SLOT_SIZE in *.
  destruct (Z.leb_spec (sizeof T) 0); [lia|]. destruct (Z.gtb_spec (sizeof T) 512); [lia|].
  fold i. rewrite (on_pool_run i _ w q); [|exact Hrange | now rewrite Hstatic].
  rewrite allocate_reuse by exact Hfree. fold a. cbn [this env]. rewrite Hstatic.
  destruct (Z.eqb_spec a nullptr); [contradiction|]. cbn [negb].
  unfold placement_new, ret. cbn [memoryPool sys memory arena trace].
  unfold deleteElement. destruct (Z.eqb_spec a nullptr); [contradiction|]. cbn [negb].
  unfold bind, destroy_at. cbn [memoryPool sys memory arena trace].
  unfold freeMemory, MAX_SLOT_SIZE. destruct (Z.eqb_spec a nullptr); [contradiction|].
  destruct (Z.gtb_spec (sizeof T) 512); [lia|].
  rewrite (freeMemory_index_spec (sizeof T)) by (unfold MAX_SLOT_SIZE; lia). fold i.
  set (q1 := set_freeList (next_load (memory (sys w)) a) q).
  rewrite (on_pool_run i _ _ q1); [|exact Hrange | cbn; now apply list_lookup_insert_eq].
  cbn [sys static_memoryPool memoryPool].
  match goal with |- context [deallocate spur' a (mkObj q1 ?s1)] =>
    destruct (deallocate_spec spur' a q1 s1) as (m' & Hd & Hm'); [assumption|]; rewrite Hd
  end.
  cbn [this env memory arena trace] in *.
  eexists. split; [reflexivity|]. cbn [memoryPool sys arena trace memory].
  splits.
  - f_equal. rewrite list_insert_insert_eq. apply list_insert_id.
    rewrite Hq. f_equal. subst q1. rewrite set_freeList_twice. symmetry.
    apply set_freeList_same.
  - reflexivity.
  - now rewrite <- app_assoc.
  - apply (next_load_store _ m' _ _ Hm'). cbn. apply next_load_range.
Qed.

Lemma steady_round_trip_witness :
  exists w',
    (p <- newElement P1 0 ;; deleteElement P1 1 p)
      (mkWorld (Some (<[0%nat := mkPool 4096 8 65536 65552 69625 65544]>
                        (map (fun j => mkPool 4096 ((j + 1) * 8) 0 0 0 0) (seqZ 0 64))))
               (fresh_sys [])) = Ok (tt, w')
    /\ memoryPool w' =
         Some (<[0%nat := mkPool 4096 8 65536 65552 69625 65544]>
                 (map (fun j => mkPool 4096 ((j + 1) * 8) 0 0 0 0) (seqZ 0 64)))
    /\ arena (sys w') = []
    /\ trace (sys w') = [] ++ [EvConstruct 65544; EvDestruct 65544]
    /\ next_load (memory (sys w')) 65544 = next_load zero_memory 65544.
Proof.
  apply (steady_round_trip P1 0 1
           (mkWorld (Some (<[0%nat := mkPool 4096 8 65536 65552 69625 65544]>
                             (map (fun j => mkPool 4096 ((j + 1) * 8) 0 0 0 0) (seqZ 0 64))))
                    (fresh_sys []))
           _ (mkPool 4096 8 65536 65552 69625 65544)).
  - cbn. unfold MAX_SLOT_SIZE. lia.
  - reflexivity.
  - reflexivity.
  - discriminate.
Defined.

(** ** The tests of the pool *)

(** The first two allocations of a pool of 8-byte slots. *)
Lemma first_two_slots (BlockSize blk : Z) (rest : list Z) (spur1 spur2 : nat) (s : Sys) :
  31 <= BlockSize < 2 ^ 31 ->
  arena s = blk :: rest ->
  0 < blk -> blk + BlockSize < 2 ^ 64 ->
  exists first,
    blk + 8 <= first < blk + 16 /\ first mod 8 = 0
    /\ (init 8 ;; p1 <- allocate spur1 ;; p2 <- allocate spur2 ;; ret (p1, p2))
         (mkObj (MemoryPool_ctor BlockSize) s)
       = Ok ((first, first + 8),
             mkObj (mkPool BlockSize 8 blk (first + 16) (blk + BlockSize - 8 + 1) nullptr)
                   (mkSys (next_store (memory s) blk nullptr) rest
                          (trace s ++ [EvLock; EvNew BlockSize blk; EvUnlock;
                                       EvLock; EvUnlock]))).
Proof.
  intros HB Harena Hblk Hend.
  set (p0 := mkPool BlockSize 8 nullptr nullptr nullptr nullptr).
  destruct (grow_values p0 BlockSize 8 blk) as (Hfs & Hbd & Hpad);
    try reflexivity; try lia.
  destruct (pad_aligned (blk + 8) 8) as (_ & Hal); [lia|].
  cbv zeta in Hfs, Hpad, Hal.
  set (first := blk + 8 + (if (blk + 8) mod 8 =? 0 then 0 else 8 - (blk + 8) mod 8)) in *.
  assert (Hfirst : blk + 8 <= first < blk + 16) by (subst first; lia).
  clearbody first. exists first. split; [exact Hfirst|]. split; [exact Hal|].
  unfold bind. rewrite pool_after_init by lia. fold p0.
  rewrite (allocate_grow spur1 p0 s blk rest);
    [| reflexivity | cbn; lia | exact Harena | cbn; rewrite to_size_t_small by lia; lia].
  fold (first_slot p0 blk). fold (boundary p0 blk). rewrite Hfs, Hbd.
  assert (Hb : bump p0 first = first + 8) by (apply (bump_exact p0); cbn; try reflexivity; lia).
  rewrite Hb. cbn [BlockSize_ SlotSize_ firstBlock_ p0].
  rewrite allocate_bump; [| reflexivity | cbn; lia].
  cbn [curSlot_ set_curSlot memory arena trace BlockSize_ SlotSize_ firstBlock_
       lastSlot_ freeList_].
  match goal with |- context [bump ?p (first + 8)] =>
    assert (Hb2 : bump p (first + 8) = first + 16)
      by (rewrite (bump_exact p); cbn; try reflexivity; lia);
    rewrite Hb2
  end.
  unfold ret. rewrite (to_size_t_small BlockSize) by lia.
  repeat rewrite <- app_assoc. reflexivity.
Qed.

(** X10 ([TestBlockAllocation] passes): whatever chunk inside the address
    space the system returns and however the compare-and-swaps go, all
    five assertions of the test hold, and the pool's destructor returns
    the one chunk it took. *)
Theorem TestBlockAllocation_passes (spur1 spur2 fuel : nat) (s : Sys)
        (blk : Z) (rest : list Z) :
  arena s = blk :: rest ->
  0 < blk -> blk + 1024 < 2 ^ 64 ->
  (1 <= fuel)%nat ->
  TestBlockAllocation spur1 spur2 fuel s =
    Ok (tt, mkSys (next_store (memory s) blk nullptr) rest
                  (trace s ++ [EvLock; EvNew 1024 blk; EvUnlock; EvLock; EvUnlock;
                               EvDelete blk])).
Proof.
  intros Harena Hblk Hend Hfuel.
  destruct (first_two_slots 1024 blk rest spur1 spur2 s) as (first & Hfirst & Hal & Hrun);
    try assumption; try lia.
  unfold TestBlockAllocation, with_local_pool.
  unfold bind in *.
  destruct (init 8 (mkObj (MemoryPool_ctor 1024) s)) as [[[] o0]|]; [|discriminate].
  destruct (allocate spur1 o0) as [[p1 o1]|]; [|discriminate].
  destruct (allocate spur2 o1) as [[p2 o2]|]; [|discriminate].
  unfold ret in Hrun. injection Hrun as -> -> ->.
  unfold assert_that.
  destruct (Z.eqb_spec first nullptr) as [E|_]; [unfold nullptr in E; lia|].
  destruct (Z.eqb_spec (first + 8) nullptr) as [E|_]; [unfold nullptr in E; lia|].
  cbn [negb]. unfold ret.
  replace (first + 8 - first) with 8 by lia.
  change (wrap64 8 =? 8) with true. cbv iota.
  rewrite Hal. rewrite (mod_add_self first 8) by (lia || exact Hal).
  cbn [Z.eqb]. unfold MemoryPool_dtor, bind, self. cbn [this firstBlock_].
  rewrite (release_blocks_list _ [blk]).
  - cbn [env memory arena trace map]. rewrite <- app_assoc. reflexivity.
  - unfold chunk_list. cbn [chain_seg memory]. splits; [reflexivity | unfold nullptr; lia |].
    apply (next_load_store (memory s)); [reflexivity | unfold nullptr; lia].
  - exact Hfuel.
Qed.

Lemma TestBlockAllocation_passes_witness :
  TestBlockAllocation 0 2 1 (fresh_sys [65540]) =
    Ok (tt, mkSys (next_store zero_memory 65540 nullptr) []
                  ([] ++ [EvLock; EvNew 1024 65540; EvUnlock; EvLock; EvUnlock;
                          EvDelete 65540])).
Proof.
  apply (TestBlockAllocation_passes 0 2 1 (fresh_sys [65540]) 65540 []);
    try reflexivity; lia.
Defined.

(** X11 ([TestReuse] passes): whatever chunk inside the address space the
    system returns and however the compare-and-swaps go, the address
    allocated after [deallocate(p1)] is [p1], the test ends without a
    fault, the two lock-protected allocations are the only ones that
    take the lock, the destructor returns the one chunk, and no byte
    outside the chunk is written. *)
Theorem TestReuse_passes (spur1 spur2 spur3 spur4 spur5 spur6 fuel : nat) (s : Sys)
        (blk : Z) (rest : list Z) :
  arena s = blk :: rest ->
  0 < blk -> blk + 4096 < 2 ^ 64 ->
  (1 <= fuel)%nat ->
  exists m',
    TestReuse spur1 spur2 spur3 spur4 spur5 spur6 fuel s =
      Ok (tt, mkSys m' rest
                    (trace s ++ [EvLock; EvNew 4096 blk; EvUnlock; EvLock; EvUnlock;
                                 EvDelete blk]))
    /\ forall x, x < blk \/ blk + 4096 <= x -> m' x = memory s x.
Proof.
  intros Harena Hblk Hend Hfuel.
  destruct (first_two_slots 4096 blk rest spur1 spur2 s) as (first & Hfirst & Hal & Hrun);
    try assumption; try lia.
  unfold TestReuse, with_local_pool.
  unfold bind in *.
  destruct (init 8 (mkObj (MemoryPool_ctor 4096) s)) as [[[] o0]|]; [|discriminate].
  destruct (allocate spur1 o0) as [[p1 o1]|]; [|discriminate].
  destruct (allocate spur2 o1) as [[p2 o2]|]; [|discriminate].
  unfold ret in Hrun. injection Hrun as -> -> ->.
  assert (Hnz : first <> nullptr) by (unfold nullptr; lia).
  assert (Hnz2 : first + 8 <> nullptr) by (unfold nullptr; lia).
  set (m0 := next_store (memory s) blk nullptr).
  match goal with |- context [deallocate spur3 first (mkObj ?p ?s2)] =>
    destruct (deallocate_spec spur3 first p s2 Hnz) as (m1 & Hd1 & Hm1); rewrite Hd1
  end.
  cbn [freeList_ memory arena trace] in *.
  rewrite allocate_reuse by (cbn; exact Hnz).
  cbn [freeList_ set_freeList memory].
  rewrite (next_load_store m0 m1 first nullptr Hm1) by (unfold nullptr; lia).
  unfold assert_that. rewrite Z.eqb_refl. unfold ret.
  match goal with |- context [deallocate spur5 (first + 8) (mkObj ?p ?s2)] =>
    destruct (deallocate_spec spur5 (first + 8) p s2 Hnz2) as (m2 & Hd2 & Hm2); rewrite Hd2
  end.
  cbn [freeList_ set_freeList memory arena trace] in *.
  match goal with |- context [deallocate spur6 first (mkObj ?p ?s2)] =>
    destruct (deallocate_spec spur6 first p s2 Hnz) as (m3 & Hd3 & Hm3); rewrite Hd3
  end.
  cbn [freeList_ set_freeList memory arena trace] in *.
  unfold MemoryPool_dtor, bind, self. cbn [this firstBlock_ set_freeList].
  assert (Hout : forall x, x < blk + 8 \/ blk + 4096 <= x -> m3 x = m0 x).
  { intros x Hx. rewrite Hm3. unfold next_store at 1. rewrite store_le_outside by (cbn; lia).
    rewrite Hm2. unfold next_store at 1. rewrite store_le_outside by (cbn; lia).
    rewrite Hm1. unfold next_store at 1. apply store_le_outside. cbn. lia. }
  rewrite (release_blocks_list _ [blk]).
  - exists m3. cbn [env memory arena trace map]. rewrite <- app_assoc.
    split; [reflexivity|].
    intros x Hx. rewrite Hout by lia. unfold m0, next_store.
    apply store_le_outside. cbn. lia.
  - unfold chunk_list. cbn [chain_seg memory]. splits; [reflexivity | unfold nullptr; lia |].
    transitivity (next_load m0 blk).
    + unfold next_load. apply load_le_ext. intros x Hx. cbn in Hx. apply Hout. lia.
    + apply (next_load_store (memory s)); [reflexivity | unfold nullptr; lia].
  - exact Hfuel.
Qed.

Lemma TestReuse_passes_witness :
  exists m',
    TestReuse 0 1 0 2 0 0 3 (fresh_sys [65536; 131072]) =
      Ok (tt, mkSys m' [131072]
                    ([] ++ [EvLock; EvNew 4096 65536; EvUnlock; EvLock; EvUnlock;
                            EvDelete 65536]))
    /\ forall x, x < 65536 \/ 65536 + 4096 <= x -> m' x = zero_memory x.
Proof.
  apply (TestReuse_passes 0 1 0 2 0 0 3 (fresh_sys [65536; 131072]) 65536 [131072]);
    try reflexivity; lia.
Defined.

(** ** No slot is handed out twice *)

Lemma NoDup_app_disjoint {A : Type} (l k : list A) (x : A) :
  List.NoDup (l ++ k) -> In x l -> In x k -> False.
Proof.
  induction l as [|y l IH]; cbn; intros Hnd Hl Hk; [contradiction|].
  inversion Hnd as [|? ? Hy Hnd']; subst. destruct Hl as [->|Hl].
  - apply Hy. apply in_or_app. now right.
  - exact (IH Hnd' Hl Hk).
Qed.

Section Holding.

Variables BlockSize size : Z.
Variable arena0 : list Z.
Hypothesis size_pos : 0 < size.
Hypothesis size_slots : size mod sizeof_Slot = 0.
Hypothesis size_fits : 2 * size + 7 <= BlockSize.
Hypothesis block_int : BlockSize < 2 ^ 31.
Hypothesis arena_sane : Forall (fun blk => 0 < blk /\ blk + BlockSize < 2 ^ 64) arena0.
Hypothesis arena_apart : apart BlockSize arena0.

Lemma live_sane (o : Obj) (live L cs : list Z) :
  live_inv BlockSize size arena0 o live L cs ->
  sane_arena BlockSize (env o).
Proof.
  intros (_ & Har & _). unfold sane_arena.
  pose proof arena_sane as H. rewrite Har in H.
  now apply Forall_app in H as (_ & H).
Qed.

Lemma live_chunk (o : Obj) (live L cs : list Z) (c : Z) :
  live_inv BlockSize size arena0 o live L cs ->
  In c cs -> In c arena0 /\ 0 < c /\ c + BlockSize < 2 ^ 64.
Proof.
  intros (_ & Har & _) Hc.
  assert (Hin : In c arena0)
    by (rewrite Har; apply in_or_app; left; now apply in_rev in Hc).
  split; [exact Hin|].
  pose proof arena_sane as H. rewrite Forall_forall in H. apply H.
  now apply list_elem_of_In.
Qed.

Lemma live_slot (o : Obj) (live L cs : list Z) (a : Z) :
  live_inv BlockSize size arena0 o live L cs ->
  In a (live ++ L) ->
  a mod size = 0 /\ 0 < a < 2 ^ 64 /\
  exists c, In c cs /\ c + 8 <= a /\ a + size <= c + BlockSize.
Proof.
  intros Hinv Ha. pose proof Hinv as (_ & _ & _ & _ & _ & Hall & _).
  rewrite Forall_forall in Hall. destruct (Hall a) as (Hm & c & Hc & Hlo & Hhi);
    [now apply list_elem_of_In|].
  destruct (live_chunk o live L cs c Hinv Hc) as (_ & ? & ?).
  unfold sizeof_Slot_ptr in *. split; [exact Hm|]. split; [lia|]. exists c. auto.
Qed.

Lemma chain_seg_empty (m : Memory) (L : list Z) :
  chain_seg m nullptr L nullptr -> L = [].
Proof. destruct L as [|a L]; [auto|]. cbn. intros (<- & Ha & _). contradiction. Qed.

Lemma live_inv_init (s : Sys) :
  arena s = arena0 ->
  live_inv BlockSize size arena0
    (mkObj (mkPool BlockSize size nullptr nullptr nullptr nullptr) s) [] [] [].
Proof.
  intros Ha. unfold live_inv. cbn. splits.
  - apply chunk_inv_init.
  - now rewrite Ha.
  - left. auto.
  - reflexivity.
  - constructor.
  - constructor.
  - intros a [].
Qed.

Lemma live_inv_allocate (spur : nat) (o o' : Obj) (a : Z) (live L cs : list Z) :
  live_inv BlockSize size arena0 o live L cs ->
  allocate spur o = Ok (a, o') ->
  exists L' cs', live_inv BlockSize size arena0 o' (a :: live) L' cs'.
Proof.
  intros Hinv Hrun. pose proof (live_sane o live L cs Hinv) as Hsane.
  pose proof (live_slot o live L cs) as Hslot.
  pose proof (live_chunk o live L cs) as Hchk.
  pose proof Hinv as (Hchunk & Har & Hfirst & Hseg & Hnd & Hall & Hcur).
  destruct (chunk_inv_allocate BlockSize size size_pos size_slots size_fits block_int
              spur o o' a Hchunk Hsane Hrun) as (Hchunk' & _).
  destruct o as [p s]. cbn [this env] in *.
  pose proof Hrun as Hcase. apply allocate_cases in Hcase.
  destruct Hcase as [Hf Ha Ho | Hf Hlt Ha Ho | blk rest Hf Hge Harena Ha Ho].
  - (* a freed slot *)
    subst o'. destruct L as [|b L]; [cbn in Hseg; contradiction|].
    cbn [chain_seg] in Hseg. destruct Hseg as (Hb & Hbn & Hseg). rewrite Hb in *. subst a.
    exists L, cs. unfold live_inv. cbn [this env memory arena trace curSlot_ lastSlot_
      firstBlock_ set_freeList freeList_].
    splits; try assumption.
    + change ((b :: live) ++ L) with (b :: live ++ L).
      apply (Permutation.Permutation_NoDup (l := live ++ b :: L)); [|exact Hnd].
      symmetry. apply Permutation.Permutation_middle.
    + change ((b :: live) ++ L) with (b :: live ++ L).
      rewrite Forall_forall in Hall. rewrite Forall_forall. intros x Hx.
      apply Hall. apply list_elem_of_In. apply list_elem_of_In in Hx.
      apply in_or_app. destruct Hx as [<-|Hx]; [right; now left|].
      apply in_app_or in Hx as [?|?]; [now left | right; now right].
    + intros x Hx. apply Hcur. apply in_or_app.
      change ((b :: live) ++ L) with (b :: live ++ L) in Hx.
      destruct Hx as [<-|Hx]; [right; now left|].
      apply in_app_or in Hx as [?|?]; [now left | right; now right].
  - (* the cursor *)
    destruct (fresh_slot_in_chunk BlockSize size size_pos size_slots size_fits block_int
                spur p s a o' Hchunk Hsane Hf Hrun) as (Hlo & Hcu & Hhi).
    subst o'. cbn [this env memory arena trace] in *.
    pose proof Hchunk' as (_ & _ & Hc').
    cbn [curSlot_ lastSlot_ firstBlock_ set_curSlot freeList_] in Hlo, Hcu, Hhi, Hc'.
    rewrite Hf in Hseg. apply chain_seg_empty in Hseg. subst L.
    rewrite app_nil_r in *.
    assert (Hin : In (firstBlock_ p) cs).
    { destruct Hfirst as [(Hc0 & Hl0)|H]; [unfold nullptr in *; lia | exact H]. }
    destruct (Hchk _ Hinv Hin) as (Hin0 & Hfpos & Hfend).
    unfold sizeof_Slot_ptr in *.
    exists [], cs. unfold live_inv. cbn [this env memory arena trace curSlot_ lastSlot_
      firstBlock_ set_curSlot freeList_]. rewrite app_nil_r.
    splits; try assumption.
    + now right.
    + constructor; [|exact Hnd]. intros Hx.
      destruct (Hslot _ Hinv Hx) as (_ & _ & c & Hc & Hclo & Hchi).
      destruct (Hchk _ Hinv Hc) as (Hc0 & _ & _).
      destruct (apart_in BlockSize arena0 c (firstBlock_ p) arena_apart Hc0 Hin0)
        as [->|[?|?]]; [|lia|lia].
      specialize (Hcur a Hx). lia.
    + apply Forall_cons. split; [|exact Hall]. split.
      * destruct Hc' as [(Hc0 & _)|(_ & _ & _ & _ & _ & Hal)]; [unfold nullptr in *; lia|].
        rewrite <- Hcu in Hal. apply mod_sub_self in Hal; [exact Hal | lia].
      * exists (firstBlock_ p). unfold sizeof_Slot_ptr. split; [exact Hin | lia].
    + rewrite <- Hcu. intros x [<-|Hx] Hr; [lia|]. specialize (Hcur x Hx Hr). lia.
  - (* a new chunk *)
    destruct (fresh_slot_in_chunk BlockSize size size_pos size_slots size_fits block_int
                spur p s a o' Hchunk Hsane Hf Hrun) as (Hlo & Hcu & Hhi).
    subst o'. cbn [this env memory arena trace] in *.
    pose proof Hchunk' as (_ & _ & Hc').
    cbn [curSlot_ lastSlot_ firstBlock_ freeList_] in Hlo, Hcu, Hhi, Hc'.
    rewrite Hf in Hseg. apply chain_seg_empty in Hseg. subst L.
    rewrite app_nil_r in *.
    unfold sane_arena in Hsane. rewrite Harena in Hsane.
    apply Forall_cons in Hsane as ((Hblk & Hend) & _).
    unfold sizeof_Slot_ptr in *.
    assert (Hother : forall x, In x live -> x + size <= blk \/ blk + BlockSize <= x).
    { intros x Hx. destruct (Hslot _ Hinv Hx) as (_ & _ & c & Hc & Hclo & Hchi).
      destruct (apart_cross BlockSize (rev cs) (blk :: rest) c blk) as [?|?];
        [now rewrite <- Harena, <- Har | now apply in_rev in Hc | now left | lia | lia]. }
    exists [], (blk :: cs). unfold live_inv. cbn [this env memory arena trace curSlot_
      lastSlot_ firstBlock_ freeList_]. rewrite app_nil_r.
    splits.
    + exact Hchunk'.
    + rewrite Har, Harena. cbn [rev]. now rewrite <- app_assoc.
    + right. now left.
    + reflexivity.
    + constructor; [|exact Hnd]. intros Hx. destruct (Hother a Hx); lia.
    + apply Forall_cons. split.
      * split.
        -- destruct Hc' as [(Hc0 & _)|(_ & _ & _ & _ & _ & Hal)]; [unfold nullptr in *; lia|].
           rewrite <- Hcu in Hal. apply mod_sub_self in Hal; [exact Hal | lia].
        -- exists blk. unfold sizeof_Slot_ptr. split; [now left | lia].
      * eapply Forall_impl; [exact Hall|]. cbn. intros b (Hm & c & Hc & Hb).
        split; [exact Hm|]. exists c. split; [now right | exact Hb].
    + rewrite <- Hcu. intros x [<-|Hx] Hr; [lia|]. destruct (Hother x Hx); lia.
Qed.

Lemma live_inv_deallocate (spur which : nat) (o o' : Obj) (ptr : Z) (live L cs : list Z) :
  live_inv BlockSize size arena0 o live L cs ->
  live !! which = Some ptr ->
  deallocate spur ptr o = Ok (tt, o') ->
  live_inv BlockSize size arena0 o' (delete which live) (ptr :: L) cs.
Proof.
  intros Hinv Hw Hrun. pose proof (live_slot o live L cs) as Hslot.
  pose proof Hinv as (Hchunk & Har & Hfirst & Hseg & Hnd & Hall & Hcur).
  assert (Hperm : Permutation.Permutation (live ++ L) (delete which live ++ ptr :: L)).
  { rewrite <- Permutation.Permutation_middle.
    change (ptr :: delete which live ++ L) with ((ptr :: delete which live) ++ L).
    apply Permutation.Permutation_app_tail. now apply delete_Permutation. }
  assert (Hin : In ptr live) by (apply list_elem_of_In; eapply list_elem_of_lookup_2; eauto).
  destruct (Hslot ptr Hinv) as (Hpm & Hpr & _); [apply in_or_app; now left|].
  assert (Hnz : ptr <> nullptr) by (unfold nullptr; lia).
  destruct o as [p s]. cbn [this env memory] in *.
  destruct (deallocate_spec spur ptr p s Hnz) as (m' & Hd & Hm').
  rewrite Hd in Hrun. injection Hrun as <-.
  assert (Hrange : 0 <= freeList_ p < 2 ^ 64).
  { destruct L as [|b L]; [cbn in Hseg; rewrite Hseg; unfold nullptr; lia|].
    cbn in Hseg. destruct Hseg as (-> & _).
    destruct (Hslot b Hinv) as (_ & ? & _); [apply in_or_app; right; now left | lia]. }
  assert (Hword : 8 <= size)
    by (unfold sizeof_Slot in size_slots; pose proof (Z.div_mod size 8); lia).
  unfold live_inv. cbn [this env memory arena trace curSlot_ lastSlot_ firstBlock_
    set_freeList freeList_]. splits; try assumption.
  - cbn [chain_seg]. splits; [reflexivity | exact Hnz |].
    rewrite (next_load_store (memory s) m' ptr (freeList_ p) Hm' Hrange).
    apply (chain_seg_frame (memory s)); [|exact Hseg].
    intros b x Hb Hx. rewrite Hm'. unfold next_store. apply store_le_outside.
    destruct (Hslot b Hinv) as (Hbm & _); [apply in_or_app; now right|].
    assert (Hne : b <> ptr).
    { intros ->. exact (NoDup_app_disjoint live L ptr Hnd Hin Hb). }
    destruct (multiples_apart b ptr size size_pos Hbm Hpm) as [?|[?|?]];
      [contradiction | cbn; lia | cbn; lia].
  - apply (Permutation.Permutation_NoDup Hperm Hnd).
  - rewrite Forall_forall in Hall. rewrite Forall_forall. intros x Hx.
    apply Hall. apply list_elem_of_In. apply list_elem_of_In in Hx.
    apply (Permutation.Permutation_in x (Permutation.Permutation_sym Hperm) Hx).
  - intros x Hx. apply Hcur.
    apply (Permutation.Permutation_in x (Permutation.Permutation_sym Hperm) Hx).
Qed.

Lemma live_inv_client (calls : list call) :
  forall (live R L cs : list Z) (o o' : Obj),
  live_inv BlockSize size arena0 o live L cs ->
  holding_client calls live o = Ok (R, o') ->
  exists L' cs', live_inv BlockSize size arena0 o' R L' cs'.
Proof.
  induction calls as [|[spur|spur which] rest IH]; intros live R L cs o o' Hinv Hrun.
  - cbn in Hrun. injection Hrun as <- <-. eauto.
  - cbn [holding_client] in Hrun. unfold bind in Hrun.
    destruct (allocate spur o) as [[a o1]|f] eqn:Ha; [|discriminate].
    destruct (live_inv_allocate spur o o1 a live L cs Hinv Ha) as (L1 & cs1 & Hinv1).
    exact (IH _ _ _ _ _ _ Hinv1 Hrun).
  - cbn [holding_client] in Hrun.
    destruct (live !! which) as [ptr|] eqn:Hw; [|exact (IH _ _ _ _ _ _ Hinv Hrun)].
    unfold bind in Hrun.
    destruct (deallocate spur ptr o) as [[[] o1]|f] eqn:Hd; [|discriminate].
    exact (IH _ _ _ _ _ _ (live_inv_deallocate spur which o o1 ptr live L cs Hinv Hw Hd) Hrun).
Qed.

Lemma live_inv_step_frame (c : call) (o o' : Obj) (live live' L cs : list Z) :
  live_inv BlockSize size arena0 o live L cs ->
  holding_client [c] live o = Ok (live', o') ->
  forall b x, In b live -> In b live' -> b <= x < b + size ->
    memory (env o') x = memory (env o) x.
Proof.
  intros Hinv Hrun b x Hb Hb' Hx.
  destruct (live_slot o live L cs b Hinv) as (Hbm & Hbr & c0 & Hc0 & Hlo & Hhi);
    [apply in_or_app; now left|].
  pose proof (live_slot o live L cs) as Hslot.
  pose proof Hinv as (Hchunk & Har & Hfirst & Hseg & Hnd & Hall & Hcur).
  assert (Hword : 8 <= size)
    by (unfold sizeof_Slot in size_slots; pose proof (Z.div_mod size 8); lia).
  destruct o as [p s]. cbn [this env] in *.
  destruct c as [spur|spur which]; cbn [holding_client] in Hrun.
  - unfold bind in Hrun.
    destruct (allocate spur (mkObj p s)) as [[a o1]|f] eqn:Ha; [|discriminate].
    unfold ret in Hrun. injection Hrun as <- <-. apply allocate_cases in Ha.
    destruct Ha as [Hf Ha Ho | Hf Hlt Ha Ho | blk rest Hf Hge Harena Ha Ho];
      subst o1; cbn [env memory]; try reflexivity.
    unfold next_store. apply store_le_outside.
    destruct (apart_cross BlockSize (rev cs) (blk :: rest) c0 blk) as [?|?];
      [now rewrite <- Harena, <- Har | now apply in_rev in Hc0 | now left
      | cbn; lia | cbn; lia].
  - destruct (live !! which) as [ptr|] eqn:Hw.
    + assert (Hin : In ptr live)
        by (apply list_elem_of_In; eapply list_elem_of_lookup_2; eauto).
      destruct (Hslot ptr Hinv) as (Hpm & Hpr & _); [apply in_or_app; now left|].
      assert (Hnz : ptr <> nullptr) by (unfold nullptr; lia).
      destruct (deallocate_spec spur ptr p s Hnz) as (m' & Hd & Hm').
      unfold bind in Hrun. rewrite Hd in Hrun. unfold ret in Hrun.
      injection Hrun as <- <-. cbn [env memory]. rewrite Hm'.
      unfold next_store. apply store_le_outside.
      assert (Hne : ptr <> b).
      { intros ->. apply List.NoDup_app_remove_r in Hnd.
        apply (Permutation.Permutation_NoDup (delete_Permutation live which b Hw)) in Hnd.
        inversion Hnd as [|? ? Hnot _]; subst. exact (Hnot Hb'). }
      destruct (multiples_apart ptr b size size_pos Hpm Hbm) as [?|[?|?]];
        [contradiction | cbn; lia | cbn; lia].
    + unfold ret in Hrun. injection Hrun as <- <-. reflexivity.
Qed.

End Holding.

Lemma NoDup_lookup_inj {A : Type} (l : list A) :
  forall (i j : nat) (a : A),
  List.NoDup l -> l !! i = Some a -> l !! j = Some a -> i = j.
Proof.
  induction l as [|y l IH]; intros i j a Hnd Hi Hj; [destruct i; discriminate|].
  inversion Hnd as [|? ? Hy Hnd']; subst.
  destruct i as [|i], j as [|j]; cbn in Hi, Hj.
  - reflexivity.
  - injection Hi as ->. exfalso. apply Hy. apply list_elem_of_In.
    eapply list_elem_of_lookup_2; eauto.
  - injection Hj as ->. exfalso. apply Hy. apply list_elem_of_In.
    eapply list_elem_of_lookup_2; eauto.
  - f_equal. exact (IH i j a Hnd' Hi Hj).
Qed.

(** X12 (no slot is handed out twice): a caller that keeps the addresses
    it got from [allocate] and only passes to [deallocate] an address it
    still holds, dropping it, never holds two slots that overlap.  For a
    slot size that is a multiple of 8 with [2 * size + 7 <= BlockSize] and
    chunks of the system that do not overlap: at the end of any such run
    the free stack in memory is a list [L] ending in the null pointer,
    and the held addresses followed by [L] are multiples of the slot
    size inside chunks the pool took, and any two of them at different
    positions are at least the slot size apart. *)
Theorem held_slots_disjoint (BlockSize size : Z) (calls : list call)
        (s : Sys) (live : list Z) (o : Obj) :
  0 < size ->
  size mod sizeof_Slot = 0 ->
  2 * size + 7 <= BlockSize ->
  BlockSize < 2 ^ 31 ->
  sane_arena BlockSize s ->
  apart BlockSize (arena s) ->
  (init size ;; holding_client calls []) (mkObj (MemoryPool_ctor BlockSize) s)
    = Ok (live, o) ->
  exists L cs,
    chain_seg (memory (env o)) (freeList_ (this o)) L nullptr
    /\ arena s = rev cs ++ arena (env o)
    /\ Forall (fun a => a mod size = 0 /\ in_chunk BlockSize size cs a) (live ++ L)
    /\ forall i j a b,
         (live ++ L) !! i = Some a -> (live ++ L) !! j = Some b -> i <> j ->
         a + size <= b \/ b + size <= a.
Proof.
  intros H1 H2 H3 H4 Hs Hap Hrun. unfold bind in Hrun.
  rewrite pool_after_init in Hrun by lia.
  destruct (live_inv_client BlockSize size (arena s) H1 H2 H3 H4 Hs Hap
              calls [] live [] [] _ o
              (live_inv_init BlockSize size (arena s) s eq_refl) Hrun)
    as (L & cs & Hinv).
  exists L, cs. pose proof Hinv as (_ & Har & _ & Hseg & Hnd & Hall & _).
  splits; try assumption.
  intros i j a b Hi Hj Hij.
  rewrite Forall_forall in Hall.
  destruct (Hall a (list_elem_of_lookup_2 _ _ _ Hi)) as (Hma & _).
  destruct (Hall b (list_elem_of_lookup_2 _ _ _ Hj)) as (Hmb & _).
  destruct (multiples_apart a b size H1 Hma Hmb) as [->|H]; [|exact H].
  destruct Hij. exact (NoDup_lookup_inj _ i j b Hnd Hi Hj).
Qed.

Lemma held_slots_disjoint_witness :
  exists live o L cs,
    (init 24 ;; holding_client
       [Allocate 0; Allocate 1; Allocate 0; Deallocate 0 1; Allocate 2; Allocate 0] [])
      (mkObj (MemoryPool_ctor 64) (fresh_sys [65536; 131072])) = Ok (live, o)
    /\ chain_seg (memory (env o)) (freeList_ (this o)) L nullptr
    /\ arena (fresh_sys [65536; 131072]) = rev cs ++ arena (env o)
    /\ Forall (fun a => a mod 24 = 0 /\ in_chunk 64 24 cs a) (live ++ L)
    /\ forall i j a b,
         (live ++ L) !! i = Some a -> (live ++ L) !! j = Some b -> i <> j ->
         a + 24 <= b \/ b + 24 <= a.
Proof.
  assert (Hrun : exists live o,
             (init 24 ;; holding_client
                [Allocate 0; Allocate 1; Allocate 0; Deallocate 0 1; Allocate 2; Allocate 0] [])
               (mkObj (MemoryPool_ctor 64) (fresh_sys [65536; 131072])) = Ok (live, o))
    by (do 2 eexists; vm_compute; reflexivity).
  destruct Hrun as (live & o & Hrun).
  pose proof (fun h1 h2 h3 h4 h5 h6 =>
                held_slots_disjoint 64 24 _ _ live o h1 h2 h3 h4 h5 h6 Hrun) as H.
  destruct H as (L & cs & H);
    [lia | reflexivity | lia | lia | repeat constructor | cbn; repeat constructor; lia |].
  exists live, o, L, cs. split; [exact Hrun | exact H].
Defined.

(** X13 (held slots are left alone): in a pool whose slot size is a
    multiple of 8 with [2 * size + 7 <= BlockSize] and with chunks of the
    system that do not overlap, after any run of a caller that
    keeps what it got and frees only what it holds, one more call of
    [allocate], or of [deallocate] on a held address, changes no byte of
    a slot that is held before and after the call: [allocate] writes
    only the header word of a chunk it takes, and [deallocate] only the
    link word of the slot it is given. *)
Theorem held_bytes_kept (BlockSize size : Z) (calls : list call) (c : call)
        (s : Sys) (live live' : list Z) (o o' : Obj) :
  0 < size ->
  size mod sizeof_Slot = 0 ->
  2 * size + 7 <= BlockSize ->
  BlockSize < 2 ^ 31 ->
  sane_arena BlockSize s ->
  apart BlockSize (arena s) ->
  (init size ;; holding_client calls []) (mkObj (MemoryPool_ctor BlockSize) s)
    = Ok (live, o) ->
  holding_client [c] live o = Ok (live', o') ->
  forall b x, In b live -> In b live' -> b <= x < b + size ->
    memory (env o') x = memory (env o) x.
Proof.
  intros H1 H2 H3 H4 Hs Hap Hrun Hstep. unfold bind in Hrun.
  rewrite pool_after_init in Hrun by lia.
  destruct (live_inv_client BlockSize size (arena s) H1 H2 H3 H4 Hs Hap
              calls [] live [] [] _ o
              (live_inv_init BlockSize size (arena s) s eq_refl) Hrun)
    as (L & cs & Hinv).
  exact (live_inv_step_frame BlockSize size (arena s) H1 H2 H3 Hs Hap
           c o o' live live' L cs Hinv Hstep).
Qed.

Lemma held_bytes_kept_witness :
  exists live o live' o',
    (init 24 ;; holding_client [Allocate 0; Allocate 1; Deallocate 0 1; Allocate 0] [])
      (mkObj (MemoryPool_ctor 64) (fresh_sys [65536; 131072])) = Ok (live, o)
    /\ holding_client [Allocate 2] live o = Ok (live', o')
    /\ forall b x, In b live -> In b live' -> b <= x < b + 24 ->
         memory (env o') x = memory (env o) x.
Proof.
  assert (Hrun : exists live o,
             (init 24 ;; holding_client
                [Allocate 0; Allocate 1; Deallocate 0 1; Allocate 0] [])
               (mkObj (MemoryPool_ctor 64) (fresh_sys [65536; 131072])) = Ok (live, o))
    by (do 2 eexists; vm_compute; reflexivity).
  destruct Hrun as (live & o & Hrun).
  assert (Hstep : exists live' o', holding_client [Allocate 2] live o = Ok (live', o')).
  { unfold bind in Hrun. rewrite pool_after_init in Hrun by lia.
    vm_compute in Hrun. injection Hrun as <- <-. do 2 eexists. vm_compute. reflexivity. }
  destruct Hstep as (live' & o' & Hstep).
  exists live, o, live', o'. split; [exact Hrun|]. split; [exact Hstep|].
  apply (held_bytes_kept 64 24 [Allocate 0; Allocate 1; Deallocate 0 1; Allocate 0]
           (Allocate 2) (fresh_sys [65536; 131072]) live live' o o');
    [lia | reflexivity | lia | lia | repeat constructor
    | cbn; repeat constructor; lia | exact Hrun | exact Hstep].
Defined.

(** ** The benchmark *)

Lemma initMemoryPool_exact (w : World) :
  registry_ok w ->
  exists l,
    initMemoryPool w = Ok (tt, mkWorld (Some l) (sys w))
    /\ length l = Z.to_nat MEMORY_POOL_NUM
    /\ forall (j : nat) (q : MemoryPool),
         static_memoryPool w !! j = Some q ->
         l !! j = Some (mkPool (BlockSize_ q) ((Z.of_nat j + 1) * SLOT_BASE_SIZE)
                               nullptr nullptr nullptr nullptr).
Proof.
  intros Hok.
  destruct (init_loop_exact (Z.to_nat MEMORY_POOL_NUM) 0 (static_memoryPool w) (sys w))
    as (l & Hloop & Hlen & Hall); [now apply static_length | lia |].
  exists l. split; [|split; [exact Hlen|]].
  - unfold initMemoryPool.
    change (Z.to_nat MEMORY_POOL_NUM) with (S 63) in *.
    cbn [for_loop] in *. unfold bind at 1. unfold bind at 1 in Hloop.
    unfold init_body at 1. unfold init_body at 1 in Hloop.
    rewrite on_pool_static. exact Hloop.
  - intros j q Hq. apply (Hall j q Hq). apply lookup_lt_Some in Hq.
    rewrite static_length in Hq by exact Hok. lia.
Qed.

Lemma steady_run_trans (j k : nat) (w w1 w2 : World) :
  steady_run j w w1 -> steady_run k w1 w2 -> steady_run (j + k) w w2.
Proof.
  intros (A1 & A2 & A3 & A4 & A5 & A6) (B1 & B2 & B3 & B4 & B5 & B6).
  unfold steady_run. splits; try congruence.
  - rewrite B5, A5. lia.
  - rewrite B6, A6. lia.
Qed.

Lemma steady_run_refl (w : World) : steady_run 0 w w.
Proof. unfold steady_run. splits; auto; lia. Qed.

Lemma new_delete_steady (T : CxxClass) (spur spur' : nat) (w : World)
      (l : list MemoryPool) :
  1 <= sizeof T <= MAX_SLOT_SIZE ->
  memoryPool w = Some l ->
  warm l T ->
  exists w', new_delete T spur spur' w = Ok (tt, w') /\ steady_run 1 w w'.
Proof.
  intros Hs Hl (q & Hq & Hfree).
  destruct (useMemory_index_spec (sizeof T) Hs) as (_ & Hrange & _).
  set (i := useMemory_index (sizeof T)) in *. set (a := freeList_ q) in *.
  assert (Hstatic : static_memoryPool w = l) by (unfold static_memoryPool; now rewrite Hl).
  assert (Hlt : (Z.to_nat i < length l)%nat) by (apply lookup_lt_Some in Hq; exact Hq).
  unfold new_delete, bind, newElement, bind, useMemory, MAX_SLOT_SIZE in *.
  destruct (Z.leb_spec (sizeof T) 0); [lia|]. destruct (Z.gtb_spec (sizeof T) 512); [lia|].
  fold i. rewrite (on_pool_run i _ w q); [|exact Hrange | now rewrite Hstatic].
  rewrite allocate_reuse by exact Hfree. fold a. cbn [this env]. rewrite Hstatic.
  destruct (Z.eqb_spec a nullptr); [contradiction|]. cbn [negb].
  unfold placement_new, ret. cbn [memoryPool sys memory arena trace].
  unfold deleteElement. destruct (Z.eqb_spec a nullptr); [contradiction|]. cbn [negb].
  unfold bind, destroy_at. cbn [memoryPool sys memory arena trace].
  unfold freeMemory, MAX_SLOT_SIZE. destruct (Z.eqb_spec a nullptr); [contradiction|].
  destruct (Z.gtb_spec (sizeof T) 512); [lia|].
  rewrite (freeMemory_index_spec (sizeof T)) by (unfold MAX_SLOT_SIZE; lia). fold i.
  set (q1 := set_freeList (next_load (memory (sys w)) a) q).
  rewrite (on_pool_run i _ _ q1); [|exact Hrange | cbn; now apply list_lookup_insert_eq].
  cbn [sys static_memoryPool memoryPool].
  match goal with |- context [deallocate spur' a (mkObj q1 ?s1)] =>
    destruct (deallocate_spec spur' a q1 s1) as (m' & Hd & Hm'); [assumption|]; rewrite Hd
  end.
  cbn [this env memory arena trace] in *.
  eexists. split; [reflexivity|]. unfold steady_run.
  cbn [memoryPool sys arena trace memory].
  rewrite <- !app_assoc, !news_app, !deletes_app, !constructions_app, !destructions_app.
  cbn. rewrite !app_nil_r. splits; try reflexivity; try lia.
  rewrite Hl. f_equal. rewrite list_insert_insert_eq. apply list_insert_id.
  rewrite Hq. f_equal. subst q1. rewrite set_freeList_twice. symmetry.
  apply set_freeList_same.
Qed.

Lemma new_delete_fresh (T : CxxClass) (spur spur' : nat) (w : World)
      (l : list MemoryPool) (sz blk : Z) (rest : list Z) :
  1 <= sizeof T <= MAX_SLOT_SIZE ->
  0 < sz <= 512 ->
  memoryPool w = Some l ->
  l !! Z.to_nat (useMemory_index (sizeof T))
    = Some (mkPool 4096 sz nullptr nullptr nullptr nullptr) ->
  arena (sys w) = blk :: rest ->
  0 < blk -> blk + 4096 < 2 ^ 64 ->
  exists q w',
    new_delete T spur spur' w = Ok (tt, w')
    /\ memoryPool w' = Some (<[Z.to_nat (useMemory_index (sizeof T)) := q]> l)
    /\ freeList_ q <> nullptr
    /\ arena (sys w') = rest
    /\ news (trace (sys w')) = news (trace (sys w)) ++ [blk]
    /\ deletes (trace (sys w')) = deletes (trace (sys w))
    /\ constructions (trace (sys w')) = S (constructions (trace (sys w)))
    /\ destructions (trace (sys w')) = S (destructions (trace (sys w))).
Proof.
  intros Hs Hsz Hl Hq Har Hb0 Hb1.
  destruct (useMemory_index_spec (sizeof T) Hs) as (_ & Hrange & _).
  set (i := useMemory_index (sizeof T)) in *.
  set (p0 := mkPool 4096 sz nullptr nullptr nullptr nullptr) in *.
  destruct (grow_values p0 4096 sz blk) as (Hfs & _ & Hpad);
    try reflexivity; try lia.
  cbv zeta in Hfs, Hpad.
  set (a := first_slot p0 blk) in *.
  assert (Ha : a <> nullptr) by (unfold nullptr; lia).
  assert (Hstatic : static_memoryPool w = l) by (unfold static_memoryPool; now rewrite Hl).
  assert (Hlt : (Z.to_nat i < length l)%nat) by (apply lookup_lt_Some in Hq; exact Hq).
  unfold new_delete, bind, newElement, bind, useMemory, MAX_SLOT_SIZE in *.
  destruct (Z.leb_spec (sizeof T) 0); [lia|]. destruct (Z.gtb_spec (sizeof T) 512); [lia|].
  fold i. rewrite (on_pool_run i _ w p0); [|exact Hrange | now rewrite Hstatic].
  rewrite (allocate_grow spur p0 (sys w) blk rest);
    [| reflexivity | cbn; lia | exact Har | cbn; rewrite to_size_t_small by lia; lia].
  fold (first_slot p0 blk). fold a. cbn [this env]. rewrite Hstatic.
  destruct (Z.eqb_spec a nullptr); [contradiction|]. cbn [negb].
  unfold placement_new, ret. cbn [memoryPool sys memory arena trace].
  unfold deleteElement. destruct (Z.eqb_spec a nullptr); [contradiction|]. cbn [negb].
  unfold bind, destroy_at. cbn [memoryPool sys memory arena trace].
  unfold freeMemory, MAX_SLOT_SIZE. destruct (Z.eqb_spec a nullptr); [contradiction|].
  destruct (Z.gtb_spec (sizeof T) 512); [lia|].
  rewrite (freeMemory_index_spec (sizeof T)) by (unfold MAX_SLOT_SIZE; lia). fold i.
  match goal with |- context [<[Z.to_nat i := ?q]> l] => set (q1 := q) end.
  rewrite (on_pool_run i _ _ q1); [|exact Hrange | cbn; now apply list_lookup_insert_eq].
  cbn [sys static_memoryPool memoryPool].
  match goal with |- context [deallocate spur' a (mkObj q1 ?s1)] =>
    destruct (deallocate_spec spur' a q1 s1) as (m' & Hd & Hm'); [assumption|]; rewrite Hd
  end.
  cbn [this env memory arena trace] in *.
  exists (set_freeList a q1). eexists. split; [reflexivity|].
  cbn [memoryPool sys arena trace memory].
  rewrite <- !app_assoc, !news_app, !deletes_app, !constructions_app, !destructions_app.
  cbn. rewrite !app_nil_r. splits; try reflexivity; try lia.
  now rewrite list_insert_insert_eq.
Qed.

Lemma benchmark_body_steady (sp : nat -> nat) (w : World) (l : list MemoryPool) :
  memoryPool w = Some l ->
  warm l P1 -> warm l P2 -> warm l P3 -> warm l P4 ->
  exists w', benchmark_body sp w = Ok (tt, w') /\ steady_run 4 w w'.
Proof.
  intros Hl W1 W2 W3 W4. unfold benchmark_body, bind.
  destruct (new_delete_steady P1 (sp 0%nat) (sp 1%nat) w l) as (w1 & R1 & S1);
    [cbn; unfold MAX_SLOT_SIZE; lia | exact Hl | exact W1 |].
  rewrite R1.
  assert (Hl1 : memoryPool w1 = Some l) by (destruct S1 as (E & _); now rewrite E).
  destruct (new_delete_steady P2 (sp 2%nat) (sp 3%nat) w1 l) as (w2 & R2 & S2);
    [cbn; unfold MAX_SLOT_SIZE; lia | exact Hl1 | exact W2 |].
  rewrite R2.
  assert (Hl2 : memoryPool w2 = Some l) by (destruct S2 as (E & _); now rewrite E).
  destruct (new_delete_steady P3 (sp 4%nat) (sp 5%nat) w2 l) as (w3 & R3 & S3);
    [cbn; unfold MAX_SLOT_SIZE; lia | exact Hl2 | exact W3 |].
  rewrite R3.
  assert (Hl3 : memoryPool w3 = Some l) by (destruct S3 as (E & _); now rewrite E).
  destruct (new_delete_steady P4 (sp 6%nat) (sp 7%nat) w3 l) as (w4 & R4 & S4);
    [cbn; unfold MAX_SLOT_SIZE; lia | exact Hl3 | exact W4 |].
  exists w4. split; [exact R4|].
  exact (steady_run_trans 3 1 _ _ _
           (steady_run_trans 2 1 _ _ _ (steady_run_trans 1 1 _ _ _ S1 S2) S3) S4).
Qed.

Lemma inner_loop_steady (sp : Z -> nat -> nat) (l : list MemoryPool) (n : nat) :
  forall (i : Z) (w : World),
  memoryPool w = Some l ->
  warm l P1 -> warm l P2 -> warm l P3 -> warm l P4 ->
  exists w',
    for_loop n i (fun i => benchmark_body (sp i)) w = Ok (tt, w')
    /\ steady_run (4 * n) w w'.
Proof.
  induction n as [|n IH]; intros i w Hl W1 W2 W3 W4.
  - exists w. split; [reflexivity | apply steady_run_refl].
  - cbn [for_loop]. unfold bind.
    destruct (benchmark_body_steady (sp i) w l Hl W1 W2 W3 W4) as (w1 & R1 & S1).
    rewrite R1.
    assert (Hl1 : memoryPool w1 = Some l) by (destruct S1 as (E & _); now rewrite E).
    destruct (IH (i + 1) w1 Hl1 W1 W2 W3 W4) as (w2 & R2 & S2).
    exists w2. split; [exact R2|].
    replace (4 * S n)%nat with (4 + 4 * n)%nat by lia.
    exact (steady_run_trans _ _ _ _ _ S1 S2).
Qed.

Lemma outer_loop_steady (sp : Z -> Z -> nat -> nat) (l : list MemoryPool) (n r : nat) :
  forall (j : Z) (w : World),
  memoryPool w = Some l ->
  warm l P1 -> warm l P2 -> warm l P3 -> warm l P4 ->
  exists w',
    for_loop r j (fun j => for_loop n 0 (fun i => benchmark_body (sp j i))) w = Ok (tt, w')
    /\ steady_run (4 * (r * n)) w w'.
Proof.
  induction r as [|r IH]; intros j w Hl W1 W2 W3 W4.
  - exists w. split; [reflexivity | apply steady_run_refl].
  - cbn [for_loop]. unfold bind.
    destruct (inner_loop_steady (sp j) l n 0 w Hl W1 W2 W3 W4) as (w1 & R1 & S1).
    rewrite R1.
    assert (Hl1 : memoryPool w1 = Some l) by (destruct S1 as (E & _); now rewrite E).
    destruct (IH (j + 1) w1 Hl1 W1 W2 W3 W4) as (w2 & R2 & S2).
    exists w2. split; [exact R2|].
    replace (4 * (S r * n))%nat with (4 * n + 4 * (r * n))%nat by lia.
    exact (steady_run_trans _ _ _ _ _ S1 S2).
Qed.

Lemma benchmark_body_first (sp : nat -> nat) (w : World) (l : list MemoryPool)
      (b1 b2 b3 b4 : Z) (rest : list Z) :
  memoryPool w = Some l ->
  (forall j : nat, (j < 64)%nat ->
     l !! j = Some (mkPool 4096 ((Z.of_nat j + 1) * 8) nullptr nullptr nullptr nullptr)) ->
  arena (sys w) = b1 :: b2 :: b3 :: b4 :: rest ->
  Forall (fun b => 0 < b /\ b + 4096 < 2 ^ 64) [b1; b2; b3; b4] ->
  exists l' w',
    benchmark_body sp w = Ok (tt, w')
    /\ memoryPool w' = Some l'
    /\ (warm l' P1 /\ warm l' P2 /\ warm l' P3 /\ warm l' P4)
    /\ arena (sys w') = rest
    /\ news (trace (sys w')) = news (trace (sys w)) ++ [b1; b2; b3; b4]
    /\ deletes (trace (sys w')) = deletes (trace (sys w))
    /\ constructions (trace (sys w')) = (constructions (trace (sys w)) + 4)%nat
    /\ destructions (trace (sys w')) = (destructions (trace (sys w)) + 4)%nat.
Proof.
  intros Hl Hall Har Hsane.
  apply Forall_cons in Hsane as ((H1a & H1b) & Hsane).
  apply Forall_cons in Hsane as ((H2a & H2b) & Hsane).
  apply Forall_cons in Hsane as ((H3a & H3b) & Hsane).
  apply Forall_cons in Hsane as ((H4a & H4b) & _).
  assert (Hlen : (9 < length l)%nat)
    by (apply (lookup_lt_Some l 9 _ (Hall 9%nat ltac:(lia)))).
  unfold benchmark_body, bind.
  destruct (new_delete_fresh P1 (sp 0%nat) (sp 1%nat) w l 8 b1 (b2 :: b3 :: b4 :: rest))
    as (q1 & w1 & R1 & L1 & F1 & A1 & N1 & D1 & C1 & E1);
    [cbn; unfold MAX_SLOT_SIZE; lia | lia | exact Hl
    | exact (Hall 0%nat ltac:(lia)) | exact Har | exact H1a | exact H1b |].
  rewrite R1. change (Z.to_nat (useMemory_index (sizeof P1))) with 0%nat in L1.
  destruct (new_delete_fresh P2 (sp 2%nat) (sp 3%nat) w1 (<[0%nat:=q1]> l) 24 b2
              (b3 :: b4 :: rest))
    as (q2 & w2 & R2 & L2 & F2 & A2 & N2 & D2 & C2 & E2);
    [cbn; unfold MAX_SLOT_SIZE; lia | lia | exact L1
    | change (Z.to_nat (useMemory_index (sizeof P2))) with 2%nat;
      rewrite list_lookup_insert_ne by lia; exact (Hall 2%nat ltac:(lia))
    | exact A1 | exact H2a | exact H2b |].
  rewrite R2. change (Z.to_nat (useMemory_index (sizeof P2))) with 2%nat in L2.
  destruct (new_delete_fresh P3 (sp 4%nat) (sp 5%nat) w2 (<[2%nat:=q2]> (<[0%nat:=q1]> l))
              40 b3 (b4 :: rest))
    as (q3 & w3 & R3 & L3 & F3 & A3 & N3 & D3 & C3 & E3);
    [cbn; unfold MAX_SLOT_SIZE; lia | lia | exact L2
    | change (Z.to_nat (useMemory_index (sizeof P3))) with 4%nat;
      rewrite !list_lookup_insert_ne by lia; exact (Hall 4%nat ltac:(lia))
    | exact A2 | exact H3a | exact H3b |].
  rewrite R3. change (Z.to_nat (useMemory_index (sizeof P3))) with 4%nat in L3.
  destruct (new_delete_fresh P4 (sp 6%nat) (sp 7%nat) w3
              (<[4%nat:=q3]> (<[2%nat:=q2]> (<[0%nat:=q1]> l))) 80 b4 rest)
    as (q4 & w4 & R4 & L4 & F4 & A4 & N4 & D4 & C4 & E4);
    [cbn; unfold MAX_SLOT_SIZE; lia | lia | exact L3
    | change (Z.to_nat (useMemory_index (sizeof P4))) with 9%nat;
      rewrite !list_lookup_insert_ne by lia; exact (Hall 9%nat ltac:(lia))
    | exact A3 | exact H4a | exact H4b |].
  change (Z.to_nat (useMemory_index (sizeof P4))) with 9%nat in L4.
  eexists. exists w4. split; [exact R4|]. split; [exact L4|].
  split; [|splits].
  - unfold warm.
    change (Z.to_nat (useMemory_index (sizeof P1))) with 0%nat.
    change (Z.to_nat (useMemory_index (sizeof P2))) with 2%nat.
    change (Z.to_nat (useMemory_index (sizeof P3))) with 4%nat.
    change (Z.to_nat (useMemory_index (sizeof P4))) with 9%nat.
    splits.
    + exists q1. split; [|exact F1]. rewrite !list_lookup_insert_ne by lia.
      apply list_lookup_insert_eq. lia.
    + exists q2. split; [|exact F2]. rewrite !list_lookup_insert_ne by lia.
      apply list_lookup_insert_eq. rewrite !length_insert. lia.
    + exists q3. split; [|exact F3]. rewrite !list_lookup_insert_ne by lia.
      apply list_lookup_insert_eq. rewrite !length_insert. lia.
    + exists q4. split; [|exact F4].
      apply list_lookup_insert_eq. rewrite !length_insert. lia.
  - exact A4.
  - rewrite N4, N3, N2, N1. now rewrite <- !app_assoc.
  - congruence.
  - rewrite C4, C3, C2, C1. lia.
  - rewrite E4, E3, E2, E1. lia.
Qed.

(** X14 (the benchmark's worker takes four chunks): from the start of
    the program, [initMemoryPool] followed by the worker of
    [BenchmarkMemoryPool] running alone, for at least one round of at
    least one iteration, succeeds whenever the system has four chunks
    inside the address space to give.  It takes exactly these four from
    [operator new], one for each of the classes [P1] to [P4], all in
    its first iteration, and returns none; every later iteration reuses
    the four slots.  It constructs and destroys
    [4 * ntimes * rounds] objects. *)
Theorem benchmark_worker_chunks (sp : Z -> Z -> nat -> nat) (ntimes rounds : Z)
        (s : Sys) (b1 b2 b3 b4 : Z) (rest : list Z) :
  1 <= ntimes ->
  1 <= rounds ->
  arena s = b1 :: b2 :: b3 :: b4 :: rest ->
  Forall (fun b => 0 < b /\ b + 4096 < 2 ^ 64) [b1; b2; b3; b4] ->
  exists w',
    (initMemoryPool ;; benchmark_worker sp ntimes rounds) (mkWorld None s) = Ok (tt, w')
    /\ arena (sys w') = rest
    /\ news (trace (sys w')) = news (trace s) ++ [b1; b2; b3; b4]
    /\ deletes (trace (sys w')) = deletes (trace s)
    /\ constructions (trace (sys w')) =
         (constructions (trace s) + 4 * (Z.to_nat ntimes * Z.to_nat rounds))%nat
    /\ destructions (trace (sys w')) =
         (destructions (trace s) + 4 * (Z.to_nat ntimes * Z.to_nat rounds))%nat.
Proof.
  intros Hn Hr Har Hsane.
  destruct (initMemoryPool_exact (mkWorld None s) I) as (l & Hinit & Hlen & Hall).
  assert (Hl : forall j : nat, (j < 64)%nat ->
            l !! j = Some (mkPool 4096 ((Z.of_nat j + 1) * 8)
                                  nullptr nullptr nullptr nullptr)).
  { intros j Hj. apply (Hall j (MemoryPool_ctor 4096)).
    apply lookup_replicate. split; [reflexivity|].
    change (Z.to_nat MEMORY_POOL_NUM) with 64%nat. exact Hj. }
  unfold bind. rewrite Hinit. cbn [sys] in *. unfold benchmark_worker.
  destruct (Z.to_nat ntimes) as [|n] eqn:En; [lia|].
  destruct (Z.to_nat rounds) as [|r] eqn:Er; [lia|].
  cbn [for_loop]. unfold bind.
  destruct (benchmark_body_first (sp 0 0) (mkWorld (Some l) s) l b1 b2 b3 b4 rest
              eq_refl Hl Har Hsane)
    as (l' & w1 & R1 & L1 & (W1 & W2 & W3 & W4) & A1 & N1 & D1 & C1 & E1).
  rewrite R1.
  destruct (inner_loop_steady (sp 0) l' n (0 + 1) w1 L1 W1 W2 W3 W4) as (w2 & R2 & S2).
  rewrite R2.
  assert (L2 : memoryPool w2 = Some l') by (destruct S2 as (E & _); now rewrite E).
  destruct (outer_loop_steady sp l' (S n) r (0 + 1) w2 L2 W1 W2 W3 W4) as (w3 & R3 & S3).
  exists w3. split; [exact R3|].
  destruct (steady_run_trans _ _ _ _ _ S2 S3) as (_ & B2 & B3 & B4 & B5 & B6).
  cbn [sys arena trace] in *.
  splits; try congruence.
  - rewrite B5, C1. lia.
  - rewrite B6, E1. lia.
Qed.

Lemma benchmark_worker_chunks_witness :
  exists w',
    (initMemoryPool ;; benchmark_worker (fun j i k => (Z.to_nat (i + j) + k)%nat) 3 2)
      (mkWorld None (fresh_sys [65536; 131072; 196608; 262144; 327680])) = Ok (tt, w')
    /\ arena (sys w') = [327680]
    /\ news (trace (sys w')) =
         news (trace (fresh_sys [65536; 131072; 196608; 262144; 327680]))
           ++ [65536; 131072; 196608; 262144]
    /\ deletes (trace (sys w')) =
         deletes (trace (fresh_sys [65536; 131072; 196608; 262144; 327680]))
    /\ constructions (trace (sys w')) =
         (constructions (trace (fresh_sys [65536; 131072; 196608; 262144; 327680]%Z))
          + 4 * (Z.to_nat 3%Z * Z.to_nat 2%Z))%nat
    /\ destructions (trace (sys w')) =
         (destructions (trace (fresh_sys [65536; 131072; 196608; 262144; 327680]%Z))
          + 4 * (Z.to_nat 3%Z * Z.to_nat 2%Z))%nat.
Proof.
  apply (benchmark_worker_chunks (fun j i k => (Z.to_nat (i + j) + k)%nat) 3 2
           (fresh_sys [65536; 131072; 196608; 262144; 327680])
           65536 131072 196608 262144 [327680]).
  - lia.
  - lia.
  - reflexivity.
  - repeat constructor.
Defined.

(** ** When [allocate] fails *)

Lemma allocate_grow_divides (spur : nat) (p : MemoryPool) (s : Sys) (blk : Z) (rest : list Z) :
  freeList_ p = nullptr ->
  lastSlot_ p <= curSlot_ p ->
  arena s = blk :: rest ->
  to_size_t (SlotSize_ p) = 0 ->
  allocate spur (mkObj p s) = Fault DivideByZero.
Proof.
  intros Hf Hge Ha Hz. unfold allocate, bind. rewrite popFreeList_spec, Hf. cbn.
  replace (curSlot_ p >=? lastSlot_ p) with true
    by (symmetry; rewrite Z.geb_leb; apply Z.leb_le; lia).
  unfold allocateNewBlock, bind, self, operator_new, sys_new, padPointer. cbn.
  rewrite Ha. cbn. rewrite Hz. reflexivity.
Qed.

Lemma allocate_fault_cases (spur : nat) (p : MemoryPool) (s : Sys) (f : fault) :
  allocate spur (mkObj p s) = Fault f ->
  freeList_ p = nullptr /\ lastSlot_ p <= curSlot_ p /\
  ((arena s = [] /\ f = BadAlloc)
   \/ (arena s <> [] /\ to_size_t (SlotSize_ p) = 0 /\ f = DivideByZero)).
Proof.
  intros H.
  destruct (Z.eq_dec (freeList_ p) nullptr) as [Hf|Hf];
    [|rewrite allocate_reuse in H by exact Hf; discriminate].
  destruct (Z.lt_ge_cases (curSlot_ p) (lastSlot_ p)) as [Hlt|Hge];
    [rewrite allocate_bump in H by assumption; discriminate|].
  split; [exact Hf|]. split; [exact Hge|].
  destruct (arena s) as [|blk rest] eqn:Ha.
  - left. rewrite allocate_grow_fails in H by assumption.
    injection H as <-. auto.
  - right. split; [discriminate|].
    destruct (Z.eq_dec (to_size_t (SlotSize_ p)) 0) as [Hz|Hz].
    + rewrite (allocate_grow_divides spur p s blk rest) in H by assumption.
      injection H as <-. auto.
    + rewrite (allocate_grow spur p s blk rest) in H by assumption. discriminate.
Qed.

(** X15 (when [allocate] fails): [allocate] fails in two situations only,
    both with the free stack empty and the cursor at or past the
    boundary, so that a chunk is needed: the system has no chunk to give
    ([std::bad_alloc]), or it gave one and the slot size is 0 as a
    [size_t] (a pool that was never given a size), where [padPointer]
    divides by it.  With a free slot, or room under the boundary, it
    always returns. *)
Theorem allocate_fails_iff (spur : nat) (p : MemoryPool) (s : Sys) (f : fault) :
  allocate spur (mkObj p s) = Fault f <->
  freeList_ p = nullptr /\ lastSlot_ p <= curSlot_ p /\
  ((arena s = [] /\ f = BadAlloc)
   \/ (arena s <> [] /\ to_size_t (SlotSize_ p) = 0 /\ f = DivideByZero)).
Proof.
  split; [apply allocate_fault_cases|].
  intros (Hf & Hge & [(Ha & ->)|(Ha & Hz & ->)]).
  - now apply allocate_grow_fails.
  - destruct (arena s) as [|blk rest] eqn:Harena; [contradiction|].
    now apply (allocate_grow_divides spur p s blk rest).
Qed.

(** X16 (where the router indexes outside its table): on a table of 64
    pools and for a size that fits [size_t], [useMemory] never calls
    [getMemoryPool] with an index outside 0..63, and [freeMemory] does so
    in one case only: a non-null address with size 0, where the index is
    -1.  (Whether the address given to [freeMemory] can be written to is
    not part of this statement.) *)
Theorem router_failures (spur : nat) (ptr size : Z) (w : World) :
  registry_ok w ->
  0 <= size < 2 ^ 64 ->
  useMemory spur size w <> Fault OutOfBounds
  /\ (freeMemory spur ptr size w = Fault OutOfBounds <->
      ptr <> nullptr /\ size = 0).
Proof.
  intros Hok Hsz. split.
  - unfold useMemory. destruct (Z.leb_spec size 0); [discriminate|].
    destruct (Z.gtb_spec size MAX_SLOT_SIZE) as [Hbig|Hsmall].
    + unfold global_new, sys_new. destruct (arena (sys w)); discriminate.
    + destruct (useMemory_index_spec size ltac:(lia)) as (_ & Hrange & _).
      destruct (on_pool_spec (useMemory_index size) (allocate spur) w Hok Hrange)
        as (p & _ & _ & ->).
      destruct (allocate spur (mkObj p (sys w))) as [[a o]|e] eqn:Ha; [discriminate|].
      intros Hrun. injection Hrun as ->.
      apply allocate_fault_cases in Ha as (_ & _ & [(_ & E)|(_ & _ & E)]); discriminate E.
  - unfold freeMemory. destruct (Z.eqb_spec ptr nullptr) as [->|Hp].
    { split; [discriminate | intros (Hn & _); contradiction]. }
    destruct (Z.gtb_spec size MAX_SLOT_SIZE) as [Hbig|Hsmall].
    { split; [discriminate | unfold MAX_SLOT_SIZE in *; intros (_ & ->); lia]. }
    destruct (Z.eq_dec size 0) as [->|Hnz].
    + rewrite on_pool_out_of_bounds by (left; vm_compute; reflexivity).
      split; auto.
    + destruct (useMemory_index_spec size ltac:(lia)) as (_ & Hrange & _).
      rewrite freeMemory_index_spec by lia.
      destruct (on_pool_spec (useMemory_index size) (deallocate spur ptr) w Hok Hrange)
        as (p & _ & _ & ->).
      destruct (deallocate_spec spur ptr p (sys w) Hp) as (m' & -> & _).
      split; [discriminate | intros (_ & ?); contradiction].
Qed.

Lemma router_failures_witness :
  useMemory 1 0 (fresh_world []) <> Fault OutOfBounds
  /\ (freeMemory 1 65544 0 (fresh_world []) = Fault OutOfBounds <->
      65544 <> nullptr /\ 0 = 0).
Proof.
  apply (router_failures 1 65544 0 (fresh_world [])).
  - exact I.
  - lia.
Defined.

(** ** Pools that share the system allocator *)

Lemma NoDup_delete_in {A : Type} (l : list A) :
  forall (i : nat) (x y : A),
  List.NoDup l -> l !! i = Some x -> In y (delete i l) -> In y l /\ y <> x.
Proof.
  induction l as [|z l IH]; intros i x y Hnd Hi Hy; [destruct i; discriminate|].
  inversion Hnd as [|? ? Hz Hnd']; subst.
  destruct i as [|i]; cbn in Hi, Hy.
  - injection Hi as ->. split; [now right|]. intros ->. contradiction.
  - destruct Hy as [->|Hy].
    + split; [now left|]. intros ->. apply Hz. apply list_elem_of_In.
      eapply list_elem_of_lookup_2; eauto.
    + destruct (IH i x y Hnd' Hi Hy) as (? & ?). split; [now right | assumption].
Qed.

Section SharedPools.

Variables BlockSize size : Z.
Variable arena0 : list Z.
Hypothesis size_pos : 0 < size.
Hypothesis size_slots : size mod sizeof_Slot = 0.
Hypothesis size_fits : 2 * size + 7 <= BlockSize.
Hypothesis block_int : BlockSize < 2 ^ 31.
Hypothesis arena_sane : Forall (fun blk => 0 < blk /\ blk + BlockSize < 2 ^ 64) arena0.
Hypothesis arena_apart : apart BlockSize arena0.

Lemma shared_sane (pre : list Z) (s : Sys) :
  arena0 = pre ++ arena s -> sane_arena BlockSize s.
Proof.
  intros Har. unfold sane_arena. pose proof arena_sane as H. rewrite Har in H.
  now apply Forall_app in H as (_ & H).
Qed.

Lemma shared_chunk (c : Z) : In c arena0 -> 0 < c /\ c + BlockSize < 2 ^ 64.
Proof.
  intros Hc. pose proof arena_sane as H. rewrite Forall_forall in H.
  apply H. now apply list_elem_of_In.
Qed.

Lemma pool_slot (pre : list Z) (o : Obj) (H : Z -> Prop) (L cs : list Z) (a : Z) :
  arena0 = pre ++ arena (env o) ->
  pool_inv BlockSize size pre o H L cs ->
  H a \/ In a L ->
  a mod size = 0 /\ 0 < a < 2 ^ 64 /\
  exists c, In c cs /\ In c arena0 /\ c + 8 <= a /\ a + size <= c + BlockSize.
Proof.
  intros Har (_ & Hincl & _ & _ & _ & _ & Hall) Ha.
  destruct (Hall a Ha) as (Hm & (c & Hc & Hlo & Hhi) & _).
  assert (Hin : In c arena0) by (rewrite Har; apply in_or_app; left; auto).
  destruct (shared_chunk c Hin) as (? & ?).
  unfold sizeof_Slot_ptr in *. split; [exact Hm|]. split; [lia|]. exists c. auto.
Qed.

Lemma pool_inv_init (s : Sys) (pre : list Z) (H : Z -> Prop) :
  (forall a, ~ H a) ->
  pool_inv BlockSize size pre
    (mkObj (mkPool BlockSize size nullptr nullptr nullptr nullptr) s) H [] [].
Proof.
  intros Hn. unfold pool_inv. cbn. splits.
  - apply chunk_inv_init.
  - intros c [].
  - left. auto.
  - reflexivity.
  - constructor.
  - intros a _ [].
  - intros a [Ha|[]]. destruct (Hn a Ha).
Qed.

Lemma pool_inv_allocate (spur : nat) (o o' : Obj) (a : Z) (pre : list Z)
      (H : Z -> Prop) (L cs : list Z) :
  arena0 = pre ++ arena (env o) ->
  pool_inv BlockSize size pre o H L cs ->
  allocate spur o = Ok (a, o') ->
  exists pre' L' cs',
    arena0 = pre' ++ arena (env o')
    /\ pool_inv BlockSize size pre' o' (fun x => x = a \/ H x) L' cs'
    /\ ~ H a
    /\ ((pre' = pre /\ cs' = cs /\ memory (env o') = memory (env o))
        \/ exists blk,
             arena (env o) = blk :: arena (env o')
             /\ pre' = pre ++ [blk] /\ cs' = blk :: cs
             /\ memory (env o')
                = next_store (memory (env o)) blk (firstBlock_ (this o))).
Proof.
  intros Har Hinv Hrun. pose proof (shared_sane pre (env o) Har) as Hsane.
  pose proof (pool_slot pre o H L cs) as Hslot.
  pose proof Hinv as (Hchunk & Hincl & Hfirst & Hseg & Hnd & Hdis & Hall).
  destruct (chunk_inv_allocate BlockSize size size_pos size_slots size_fits block_int
              spur o o' a Hchunk Hsane Hrun) as (Hchunk' & _).
  destruct o as [p s]. cbn [this env] in *.
  pose proof Hrun as Hcase. apply allocate_cases in Hcase.
  destruct Hcase as [Hf Ha Ho | Hf Hlt Ha Ho | blk rest Hf Hge Harena Ha Ho].
  - (* a freed slot *)
    subst o'. destruct L as [|b L]; [cbn in Hseg; contradiction|].
    cbn [chain_seg] in Hseg. destruct Hseg as (Hb & Hbn & Hseg). rewrite Hb in *. subst a.
    apply List.NoDup_cons_iff in Hnd as (Hbl & Hnd').
    exists pre, L, cs. split; [exact Har|]. split; [|split].
    + unfold pool_inv. cbn [this env memory arena trace curSlot_ lastSlot_
        firstBlock_ set_freeList freeList_].
      splits; try assumption.
      * intros x [->|Hx] Hin; [contradiction|]. apply (Hdis x Hx). now right.
      * intros x Hx. apply Hall. destruct Hx as [[->|Hx]|Hx];
          [right; now left | now left | right; now right].
    + intros Hb'. apply (Hdis b Hb'). now left.
    + left. auto.
  - (* the cursor *)
    destruct (fresh_slot_in_chunk BlockSize size size_pos size_slots size_fits block_int
                spur p s a o' Hchunk Hsane Hf Hrun) as (Hlo & Hcu & Hhi).
    subst o'. cbn [this env memory arena trace] in *.
    pose proof Hchunk' as (_ & _ & Hc').
    cbn [curSlot_ lastSlot_ firstBlock_ set_curSlot freeList_] in Hlo, Hcu, Hhi, Hc'.
    rewrite Hf in Hseg. apply chain_seg_empty in Hseg. subst L.
    assert (Hin : In (firstBlock_ p) cs).
    { destruct Hfirst as [(Hc0 & Hl0)|Hin]; [unfold nullptr in *; lia | exact Hin]. }
    assert (Hin0 : In (firstBlock_ p) arena0)
      by (rewrite Har; apply in_or_app; left; auto).
    destruct (shared_chunk _ Hin0) as (Hfpos & Hfend).
    unfold sizeof_Slot_ptr in *.
    assert (Hfresh : ~ H a).
    { intros Hx. destruct (Hslot a Har Hinv (or_introl Hx))
        as (_ & _ & c & Hc & Hc0 & Hclo & Hchi).
      destruct (apart_in BlockSize arena0 c (firstBlock_ p) arena_apart Hc0 Hin0)
        as [->|[?|?]]; [|lia|lia].
      destruct (Hall a (or_introl Hx)) as (_ & _ & Hcur). lia. }
    exists pre, [], cs. split; [exact Har|]. split; [|split].
    + unfold pool_inv. cbn [this env memory arena trace curSlot_ lastSlot_
        firstBlock_ set_curSlot freeList_].
      splits; try assumption.
      * now right.
      * intros x _ [].
      * intros x [[->|Hx]|[]].
        -- split; [|split].
           ++ destruct Hc' as [(Hc0 & _)|(_ & _ & _ & _ & _ & Hal)];
                [unfold nullptr in *; lia|].
              rewrite <- Hcu in Hal. apply mod_sub_self in Hal; [exact Hal | lia].
           ++ exists (firstBlock_ p). unfold sizeof_Slot_ptr. split; [exact Hin | lia].
           ++ lia.
        -- destruct (Hall x (or_introl Hx)) as (Hm & Hch & Hcur).
           split; [exact Hm|]. split; [exact Hch|]. intros Hr. specialize (Hcur Hr). lia.
    + exact Hfresh.
    + left. auto.
  - (* a new chunk *)
    destruct (fresh_slot_in_chunk BlockSize size size_pos size_slots size_fits block_int
                spur p s a o' Hchunk Hsane Hf Hrun) as (Hlo & Hcu & Hhi).
    subst o'. cbn [this env memory arena trace] in *.
    pose proof Hchunk' as (_ & _ & Hc').
    cbn [curSlot_ lastSlot_ firstBlock_ freeList_] in Hlo, Hcu, Hhi, Hc'.
    rewrite Hf in Hseg. apply chain_seg_empty in Hseg. subst L.
    unfold sane_arena in Hsane. rewrite Harena in Hsane.
    apply Forall_cons in Hsane as ((Hblk & Hend) & _).
    unfold sizeof_Slot_ptr in *.
    assert (Hother : forall x, H x -> x + size <= blk \/ blk + BlockSize <= x).
    { intros x Hx. destruct (Hslot x Har Hinv (or_introl Hx))
        as (_ & _ & c & Hc & Hc0 & Hclo & Hchi).
      destruct (apart_cross BlockSize pre (blk :: rest) c blk) as [?|?];
        [now rewrite <- Harena, <- Har | auto | now left | lia | lia]. }
    exists (pre ++ [blk]), [], (blk :: cs).
    split; [rewrite Har, Harena; now rewrite <- app_assoc|]. split; [|split].
    + unfold pool_inv. cbn [this env memory arena trace curSlot_
        lastSlot_ firstBlock_ freeList_].
      splits.
      * exact Hchunk'.
      * intros c [<-|Hc]; apply in_or_app; [right; now left | left; auto].
      * right. now left.
      * reflexivity.
      * constructor.
      * intros x _ [].
      * intros x [[->|Hx]|[]].
        -- split; [|split].
           ++ destruct Hc' as [(Hc0 & _)|(_ & _ & _ & _ & _ & Hal)];
                [unfold nullptr in *; lia|].
              rewrite <- Hcu in Hal. apply mod_sub_self in Hal; [exact Hal | lia].
           ++ exists blk. unfold sizeof_Slot_ptr. split; [now left | lia].
           ++ lia.
        -- destruct (Hall x (or_introl Hx)) as (Hm & (c & Hc & Hb) & _).
           split; [exact Hm|]. split; [exists c; split; [now right | exact Hb]|].
           intros Hr. destruct (Hother x Hx); lia.
    + intros Hx. destruct (Hother a Hx); lia.
    + right. exists blk. cbn [arena memory env this]. rewrite Harena. auto.
Qed.

Lemma pool_inv_deallocate (spur : nat) (ptr : Z) (o o' : Obj) (pre : list Z)
      (H H' : Z -> Prop) (L cs : list Z) :
  arena0 = pre ++ arena (env o) ->
  pool_inv BlockSize size pre o H L cs ->
  H ptr ->
  (forall x, H' x -> H x /\ x <> ptr) ->
  deallocate spur ptr o = Ok (tt, o') ->
  pool_inv BlockSize size pre o' H' (ptr :: L) cs
  /\ arena (env o') = arena (env o)
  /\ forall x, memory (env o') x = next_store (memory (env o)) ptr (freeList_ (this o)) x.
Proof.
  intros Har Hinv Hp Hsub Hrun. pose proof (pool_slot pre o H L cs) as Hslot.
  pose proof Hinv as (Hchunk & Hincl & Hfirst & Hseg & Hnd & Hdis & Hall).
  destruct (Hslot ptr Har Hinv (or_introl Hp)) as (Hpm & Hpr & _).
  assert (Hnz : ptr <> nullptr) by (unfold nullptr; lia).
  destruct o as [p s]. cbn [this env memory] in *.
  destruct (deallocate_spec spur ptr p s Hnz) as (m' & Hd & Hm').
  rewrite Hd in Hrun. injection Hrun as <-.
  assert (Hrange : 0 <= freeList_ p < 2 ^ 64).
  { destruct L as [|b L]; [cbn in Hseg; rewrite Hseg; unfold nullptr; lia|].
    cbn in Hseg. destruct Hseg as (-> & _).
    destruct (Hslot b Har Hinv) as (_ & ? & _); [right; now left | lia]. }
  assert (Hword : 8 <= size)
    by (unfold sizeof_Slot in size_slots; pose proof (Z.div_mod size 8); lia).
  cbn [this env memory arena]. split; [|split; [reflexivity | exact Hm']].
  unfold pool_inv. cbn [this env memory arena trace curSlot_ lastSlot_ firstBlock_
    set_freeList freeList_]. splits; try assumption.
  - cbn [chain_seg]. splits; [reflexivity | exact Hnz |].
    rewrite (next_load_store (memory s) m' ptr (freeList_ p) Hm' Hrange).
    apply (chain_seg_frame (memory s)); [|exact Hseg].
    intros b x Hb Hx. rewrite Hm'. unfold next_store. apply store_le_outside.
    destruct (Hslot b Har Hinv (or_intror Hb)) as (Hbm & _).
    assert (Hne : b <> ptr) by (intros ->; exact (Hdis ptr Hp Hb)).
    destruct (multiples_apart b ptr size size_pos Hbm Hpm) as [?|[?|?]];
      [contradiction | cbn; lia | cbn; lia].
  - constructor; [exact (Hdis ptr Hp) | exact Hnd].
  - intros x Hx [E|Hin].
    + destruct (Hsub x Hx) as (_ & Hne). now apply Hne.
    + exact (Hdis x (proj1 (Hsub x Hx)) Hin).
  - intros x [Hx|[E|Hx]]; apply Hall.
    + left. exact (proj1 (Hsub x Hx)).
    + left. now rewrite <- E.
    + now right.
Qed.

Lemma pool_inv_frame (o : Obj) (s' : Sys) (pre pre' : list Z)
      (H H' : Z -> Prop) (L cs : list Z) :
  pool_inv BlockSize size pre o H L cs ->
  (forall c, In c pre -> In c pre') ->
  (forall x, H' x -> H x) ->
  (forall b x, In b L -> b <= x < b + 8 -> memory s' x = memory (env o) x) ->
  pool_inv BlockSize size pre' (mkObj (this o) s') H' L cs.
Proof.
  intros (Hchunk & Hincl & Hfirst & Hseg & Hnd & Hdis & Hall) Hpre Hsub Hmem.
  unfold pool_inv. cbn [this env]. splits; try assumption.
  - auto.
  - apply (chain_seg_frame (memory (env o))); assumption.
  - auto.
  - intros a [Ha|Ha]; apply Hall; auto.
Qed.

End SharedPools.

Lemma pool_inv_weaken (BlockSize size : Z) (pre : list Z) (o : Obj)
      (H H' : Z -> Prop) (L cs : list Z) :
  (forall x, H' x -> H x) ->
  pool_inv BlockSize size pre o H L cs ->
  pool_inv BlockSize size pre o H' L cs.
Proof.
  intros Hsub (Hchunk & Hincl & Hfirst & Hseg & Hnd & Hdis & Hall).
  unfold pool_inv. splits; try assumption.
  - auto.
  - intros a [Ha|Ha]; apply Hall; auto.
Qed.

Lemma NoDup_delete {A : Type} (l : list A) (i : nat) :
  List.NoDup l -> List.NoDup (delete i l).
Proof.
  revert i. induction l as [|z l IH]; intros i Hnd; [destruct i; exact Hnd|].
  apply List.NoDup_cons_iff in Hnd as (Hz & Hnd).
  destruct i as [|i]; cbn; [exact Hnd|].
  constructor; [|now apply IH].
  intros Hin. apply Hz. clear -Hin. revert i Hin.
  induction l as [|y l IHl]; intros i Hin; [destruct i; destruct Hin|].
  destruct i as [|i]; cbn in Hin; [now right|].
  destruct Hin as [->|Hin]; [now left | right; eauto].
Qed.

Section WritingCallers.

Variables BlockSize size : Z.
Variable arena0 : list Z.
Hypothesis size_pos : 0 < size.
Hypothesis size_slots : size mod sizeof_Slot = 0.
Hypothesis size_fits : 2 * size + 7 <= BlockSize.
Hypothesis block_int : BlockSize < 2 ^ 31.
Hypothesis arena_sane : Forall (fun blk => 0 < blk /\ blk + BlockSize < 2 ^ 64) arena0.
Hypothesis arena_apart : apart BlockSize arena0.

Lemma writing_client_inv (acts : list action) :
  forall (live given live' given' L cs pre : list Z) (o o' : Obj),
  arena0 = pre ++ arena (env o) ->
  pool_inv BlockSize size pre o (fun x => In x live) L cs ->
  List.NoDup live ->
  Forall (fun a => a mod size = 0) given ->
  writing_client size acts live given o = Ok ((live', given'), o') ->
  Forall (fun a => a mod size = 0) given'
  /\ List.NoDup live'
  /\ exists pre' L' cs',
       arena0 = pre' ++ arena (env o')
       /\ pool_inv BlockSize size pre' o' (fun x => In x live') L' cs'.
Proof.
  assert (Hword : 8 <= size)
    by (unfold sizeof_Slot in size_slots; pose proof (Z.div_mod size 8); lia).
  induction acts as [|[spur|spur which|which off n v] rest IH];
    intros live given live' given' L cs pre o o' Har Hinv Hnd Hgiven Hrun.
  - cbn in Hrun. injection Hrun as <- <- <-. eauto 8.
  - cbn [writing_client] in Hrun. unfold bind in Hrun.
    destruct (allocate spur o) as [[a o1]|f] eqn:Ha; [|discriminate].
    destruct (pool_inv_allocate BlockSize size arena0 size_pos size_slots size_fits
                block_int arena_sane arena_apart spur o o1 a pre _ L cs Har Hinv Ha)
      as (pre1 & L1 & cs1 & Har1 & Hinv1 & Hfresh & _).
    assert (Hal : a mod size = 0).
    { destruct Hinv1 as (_ & _ & _ & _ & _ & _ & Hall).
      now destruct (Hall a (or_introl (or_introl eq_refl))). }
    refine (IH (a :: live) (a :: given) live' given' L1 cs1 pre1 o1 o' Har1 _ _ _ Hrun).
    + apply (pool_inv_weaken _ _ _ _ (fun x => x = a \/ In x live)); [|exact Hinv1].
      intros x [->|Hx]; auto.
    + constructor; assumption.
    + constructor; assumption.
  - cbn [writing_client] in Hrun.
    destruct (live !! which) as [ptr|] eqn:Hw; [|exact (IH _ _ _ _ _ _ _ _ _ Har Hinv Hnd Hgiven Hrun)].
    unfold bind in Hrun.
    destruct (deallocate spur ptr o) as [[[] o1]|f] eqn:Hd; [|discriminate].
    assert (Hin : In ptr live)
      by (apply list_elem_of_In; eapply list_elem_of_lookup_2; eauto).
    destruct (pool_inv_deallocate BlockSize size arena0 size_pos size_slots arena_sane
                spur ptr o o1 pre _ (fun x => In x (delete which live)) L cs Har Hinv Hin)
      as (Hinv1 & Har1 & _); [|exact Hd|].
    { intros x Hx. exact (NoDup_delete_in live which ptr x Hnd Hw Hx). }
    refine (IH _ _ live' given' _ _ pre o1 o' _ Hinv1 _ Hgiven Hrun).
    + now rewrite Har1.
    + now apply NoDup_delete.
  - cbn [writing_client] in Hrun.
    destruct (live !! which) as [ptr|] eqn:Hw; [|exact (IH _ _ _ _ _ _ _ _ _ Har Hinv Hnd Hgiven Hrun)].
    destruct ((0 <=? off) && (off + Z.of_nat n <=? size)) eqn:Hguard;
      [|exact (IH _ _ _ _ _ _ _ _ _ Har Hinv Hnd Hgiven Hrun)].
    apply andb_true_iff in Hguard as (Hoff & Hend).
    apply Z.leb_le in Hoff. apply Z.leb_le in Hend.
    unfold bind, poke in Hrun.
    assert (Hin : In ptr live)
      by (apply list_elem_of_In; eapply list_elem_of_lookup_2; eauto).
    refine (IH _ _ live' given' L cs pre _ o' _ _ Hnd Hgiven Hrun).
    + exact Har.
    + apply (pool_inv_frame BlockSize size o _ pre pre _ _ L cs Hinv); [auto | auto |].
      intros b x Hb Hx. cbn [memory]. apply store_le_outside.
      destruct (pool_slot BlockSize size arena0 size_pos arena_sane pre o _ L cs b Har Hinv
                  (or_intror Hb)) as (Hbm & _).
      destruct (pool_slot BlockSize size arena0 size_pos arena_sane pre o _ L cs ptr Har Hinv
                  (or_introl Hin)) as (Hpm & _).
      assert (Hne : b <> ptr).
      { intros ->. destruct Hinv as (_ & _ & _ & _ & _ & Hdis & _).
        exact (Hdis ptr Hin Hb). }
      destruct (multiples_apart b ptr size size_pos Hbm Hpm) as [?|[?|?]];
        [contradiction | lia | lia].
Qed.

End WritingCallers.

(** ** Alignment *)

(** C4, as stated, fails: a pool with slot size 4, a power of two.  The
    cursor does not move ([4 / sizeof(Slot)] is 0), so three calls of
    [allocate] return the same address.  The caller gives two of them
    back, each once, stores four bytes through the one it still holds,
    which are the low bytes of the link of the free stack, and the second
    [allocate] after that returns 65545. *)
Lemma allocate_aligned_counterexample :
  exists o,
    (init 4 ;;
     writing_client 4 [Alloc 0; Alloc 1; Alloc 0; Free 0 0; Free 2 0;
                       Write 0 0 4 65545; Alloc 0; Alloc 0] [] [])
      (mkObj (MemoryPool_ctor 4096) (fresh_sys [65536]))
    = Ok (([65545; 65544; 65544], [65545; 65544; 65544; 65544; 65544]), o)
    /\ 4 = 2 ^ 2
    /\ 65545 mod 4 = 1
    /\ ~ Forall (fun a => a mod 4 = 0) [65545; 65544; 65544; 65544; 65544].
Proof.
  eexists. split; [vm_compute; reflexivity|]. split; [reflexivity|].
  split; [reflexivity|]. intros H. apply Forall_cons in H as (H & _). discriminate H.
Qed.

(** C4, amended: [padPointer] returns 0 for an address that is a multiple
    of [align] and [align - address mod align] otherwise; and in a pool
    whose slot size is a multiple of [sizeof(Slot)], 8 (the granularity
    and every power of two from 8 up), with [2 * size + 7 <= BlockSize],
    every address [allocate] returns, from the cursor or from the free
    stack, is a multiple of the slot size, for a caller that gives back
    only slots it holds and stores only inside slots it holds.
    [operator new] returns chunks inside the address space that do not
    overlap. *)
Theorem allocate_aligned :
  (forall (St : Type) (p align : Z) (st : St),
      align <> 0 ->
      padPointer p align st =
        Ok ((if p mod align =? 0 then 0 else align - p mod align), st))
  /\
  (forall (BlockSize size : Z) (acts : list action) (s : Sys)
          (held given : list Z) (o : Obj),
      0 < size ->
      size mod sizeof_Slot = 0 ->
      2 * size + 7 <= BlockSize ->
      BlockSize < 2 ^ 31 ->
      sane_arena BlockSize s ->
      apart BlockSize (arena s) ->
      (init size ;; writing_client size acts [] [])
        (mkObj (MemoryPool_ctor BlockSize) s) = Ok ((held, given), o) ->
      Forall (fun a => a mod size = 0) given).
Proof.
  split.
  - intros St p align st Ha. unfold padPointer.
    destruct (Z.eqb_spec align 0); [contradiction | reflexivity].
  - intros BlockSize size acts s held given o H1 H2 H3 H4 Hs Hap Hrun.
    unfold bind in Hrun. rewrite pool_after_init in Hrun by lia.
    destruct (writing_client_inv BlockSize size (arena s) H1 H2 H3 H4 Hs Hap acts
                [] [] held given [] [] []
                (mkObj (mkPool BlockSize size nullptr nullptr nullptr nullptr) s) o eq_refl
                (pool_inv_init BlockSize size s [] _ (fun a Ha => Ha))
                (List.NoDup_nil Z) (List.Forall_nil _) Hrun) as (Hall & _).
    exact Hall.
Qed.

Lemma allocate_aligned_witness :
  padPointer 65544 512 tt = Ok (504, tt)
  /\ Forall (fun a => a mod 16 = 0) [131088; 65552; 65584; 65552; 65568; 65552].
Proof.
  split.
  - apply (proj1 allocate_aligned unit 65544 512 tt). discriminate.
  - refine (proj2 allocate_aligned 64 16
              [Alloc 0; Alloc 1; Write 0 8 8 77; Free 0 1; Alloc 0; Write 0 0 16 (-1);
               Alloc 2; Free 1 1; Write 1 3 13 12345678901234567890; Alloc 0; Alloc 0]
              (fresh_sys [65536; 131072; 196608])
              [131088; 65552; 65584; 65568] _ _ _ _ _ _ _ _ _).
    + lia.
    + reflexivity.
    + lia.
    + lia.
    + repeat constructor.
    + cbn. repeat constructor; lia.
    + vm_compute. reflexivity.
Defined.

(** ** Callers of the router *)








Section RouterCallers.

Variable arena0 : list Z.
Hypothesis arena_sane : Forall (fun blk => 0 < blk /\ blk + 4096 < 2 ^ 64) arena0.
Hypothesis arena_apart : apart 4096 arena0.











End RouterCallers.

(** ** Dispatch by size *)



